(** * Scrape orchestration of riven: [program/scrapers/__init__.py]

    A shallow embedding of the [Scraping] class: the backoff policy
    ([should_submit]), the eligibility gate ([can_we_scrape]), the
    hierarchy walker ([partial_state]), the threaded fan-out and merge
    ([scrape]) and the submission entry point ([run]).

    Conventions of the embedding.
    - A [datetime] is an integer count of microseconds ([Z]); a
      [timedelta] is their difference.  [should_submit] compares the exact
      rational number of seconds with the exact product of the setting;
      [should_submit_py] is the same function in the arithmetic of the
      interpreter: [total_seconds()] is the binary64 nearest to the
      quotient, a float setting is multiplied in binary64, an int setting
      exactly.
    - [datetime.now()] is an oracle: the [n]-th reading of the clock made by
      the program is [wall n]; the world counts the readings made so far.
    - [logger] calls, backend queries and the interpreter's report of an
      exception that ends a worker thread are events appended to the
      world's trace.
    - The worker threads of [scrape] only share [results] and
      [total_results], and only under the lock, so a run of the fan-out is
      fixed by the order in which the workers take the lock: a [Schedule],
      any permutation of the started workers.  An exception that leaves a
      worker's target ends that thread alone ([Thread.join] returns
      normally); the interpreter reports it through [threading.excepthook].
    - A Python [dict] is an insertion-ordered association list whose keys
      are pairwise distinct. *)

From Stdlib Require Import List String ZArith QArith Bool Lia Permutation.
From Stdlib Require Import Lqa.
From Stdlib Require Import SpecFloat.
Import ListNotations.

Local Open Scope string_scope.
Local Open Scope list_scope.
Local Open Scope Z_scope.

(* ------------------------------------------------------------------ *)
(** ** Data model *)

(** [States] of [program.media.state]: only [Completed] and
    [PartiallyCompleted] are named by the scraping code; every other
    lifecycle tag is kept under its name. *)
Inductive States : Type :=
| Completed
| PartiallyCompleted
| OtherState (tag : string).

Definition States_eqb (a b : States) : bool :=
  match a, b with
  | Completed, Completed => true
  | PartiallyCompleted, PartiallyCompleted => true
  | OtherState x, OtherState y => String.eqb x y
  | _, _ => false
  end.

(** Modelled from the spec: the [Stream] class of [program.media.stream] is
    not part of the sources at hand. The spec gives it a [dedupKey] (the
    infohash), [rawTitle], [parsedTitle] and a numeric [rank], and makes the
    dedup key its identity: two streams are equal when their infohashes
    are. *)
Record Stream : Type := mkStream {
  infohash : string;
  raw_title : string;
  parsed_title : string;
  rank : Z
}.

Definition Stream_eqb (a b : Stream) : bool :=
  String.eqb (infohash a) (infohash b).

(** The attributes of [MediaItem] that the scraping code reads or writes. *)
Record ItemBase : Type := mkBase {
  log_string : string;
  state : States;
  last_state : States;
  is_released : bool;
  scraped_at : option Z;
  scraped_times : Z;
  streams : list Stream
}.

Record Episode : Type := mkEpisode { episode_base : ItemBase }.
Record Season : Type := mkSeason { season_base : ItemBase; episodes : list Episode }.
Record Show : Type := mkShow { show_base : ItemBase; seasons : list Season }.

(** [Union[Show, Season, Episode, Movie]]: the [isinstance] tests of the
    code are matches on the constructor. *)
Inductive MediaItem : Type :=
| IMovie (b : ItemBase)
| IShow (sh : Show)
| ISeason (se : Season)
| IEpisode (ep : Episode).

Definition base (item : MediaItem) : ItemBase :=
  match item with
  | IMovie b => b
  | IShow sh => show_base sh
  | ISeason se => season_base se
  | IEpisode ep => episode_base ep
  end.

Definition with_base (item : MediaItem) (b : ItemBase) : MediaItem :=
  match item with
  | IMovie _ => IMovie b
  | IShow sh => IShow (mkShow b (seasons sh))
  | ISeason se => ISeason (mkSeason b (episodes se))
  | IEpisode _ => IEpisode (mkEpisode b)
  end.

Definition set_streams (item : MediaItem) (l : list Stream) : MediaItem :=
  let b := base item in
  with_base item (mkBase (log_string b) (state b) (last_state b) (is_released b)
                         (scraped_at b) (scraped_times b) l).

Definition set_scraped_at (item : MediaItem) (t : option Z) : MediaItem :=
  let b := base item in
  with_base item (mkBase (log_string b) (state b) (last_state b) (is_released b)
                         t (scraped_times b) (streams b)).

Definition set_scraped_times (item : MediaItem) (n : Z) : MediaItem :=
  let b := base item in
  with_base item (mkBase (log_string b) (state b) (last_state b) (is_released b)
                         (scraped_at b) n (streams b)).

Definition is_leaf (item : MediaItem) : bool :=
  match item with
  | IMovie _ | IEpisode _ => true
  | IShow _ | ISeason _ => false
  end.

(** [settings_manager.settings]: the three backoff multipliers (hours) of
    [settings.scraping] and the global [debug] flag. *)
Record Settings : Type := mkSettings {
  after_2 : Q;
  after_5 : Q;
  after_10 : Q;
  debug : bool
}.

(** Exceptions are errors (instances of [Exception]), identified by their
    message. *)
Definition Exn : Type := string.

Inductive Outcome (A : Type) : Type :=
| Returned (a : A)
| Raised (e : Exn).
Arguments Returned {A} a.
Arguments Raised {A} e.

(* ------------------------------------------------------------------ *)
(** ** Python dicts *)

Module Dict.

Definition t (V : Type) : Type := list (string * V).

Definition keys {V} (d : t V) : list string := map fst d.
Definition values {V} (d : t V) : list V := map snd d.
Definition len {V} (d : t V) : Z := Z.of_nat (List.length d).

(** [d[k] = v]: an existing key keeps its place and takes the new value,
    a new key goes last. *)
Fixpoint set {V} (k : string) (v : V) (d : t V) : t V :=
  match d with
  | [] => [(k, v)]
  | (k', v') :: d' =>
      if String.eqb k k' then (k, v) :: d' else (k', v') :: set k v d'
  end.

(** [d.update(other)] *)
Definition update {V} (d other : t V) : t V :=
  fold_left (fun acc kv => set (fst kv) (snd kv) acc) other d.

(** The shape of a value that is a dict. *)
Definition wf {V} (d : t V) : Prop := NoDup (keys d).

End Dict.

(* ------------------------------------------------------------------ *)
(** ** Effects: clock readings and the trace *)

Inductive Kind : Type := KMovie | KShow | KSeason | KEpisode.

Definition kind_of (item : MediaItem) : Kind :=
  match item with
  | IMovie _ => KMovie
  | IShow _ => KShow
  | ISeason _ => KSeason
  | IEpisode _ => KEpisode
  end.

(** The messages the code formats, kept structured. *)
Inductive Msg : Type :=
| MsgNotReleased (who : string)
| MsgBackingOff (who : string)
| MsgDuplicates (who : string) (total removed : Z)
| MsgNoGoodResults (who : string)
| MsgParsed (label : Kind) (s : Stream).

Inductive Event : Type :=
| LoggerDebug (m : Msg)                       (* logger.debug(...) *)
| LoggerLog (level : string) (m : Msg)        (* logger.log(level, ...) *)
| BackendQuery (thread : string)              (* service.run(item) in a worker *)
| ThreadExcepthook (thread : string) (e : Exn).
  (* an exception left a worker's target: the interpreter reports it on
     stderr under the thread's name and the thread ends *)

Record World : Type := mkWorld {
  ticks : nat;          (* readings of datetime.now() made so far *)
  trace : list Event
}.

Definition St (A : Type) : Type := World -> A * World.

Definition ret {A} (a : A) : St A := fun w => (a, w).

Definition bind {A B} (m : St A) (k : A -> St B) : St B :=
  fun w => let (a, w') := m w in k a w'.

Notation "x <- m ;; k" := (bind m (fun x => k))
  (at level 61, m at next level, right associativity).
Notation "m ;; k" := (bind m (fun _ => k))
  (at level 61, right associativity).

Definition emit (e : Event) : St unit :=
  fun w => (tt, mkWorld (ticks w) (trace w ++ [e])).

Definition when (b : bool) (m : St unit) : St unit :=
  if b then m else ret tt.

(** List comprehension with an effectful condition, left to right. *)
Fixpoint filterM {A} (p : A -> St bool) (l : list A) : St (list A) :=
  match l with
  | [] => ret []
  | x :: l' =>
      b <- p x ;;
      r <- filterM p l' ;;
      ret (if b then x :: r else r)
  end.

(** [for x in l: body x] *)
Fixpoint forM_ {A} (l : list A) (body : A -> St unit) : St unit :=
  match l with
  | [] => ret tt
  | x :: l' => body x ;; forM_ l' body
  end.

Definition total_seconds (delta : Z) : Q := delta # 1000000.

Definition Qgtb (x y : Q) : bool := negb (Qle_bool x y).

(** A scraper service: the class name (also the name of its worker
    thread), its [initialized] flag and its [run] method. *)
Record Service : Type := mkService {
  service_name : string;
  initialized : bool;
  service_run : MediaItem -> Outcome (Dict.t string)
}.

Record Scraping : Type := mkScraping {
  services : list Service
}.

(** The order in which the started workers pass through the critical
    section of [scrape]. *)
Definition Schedule : Type := list Service -> list Service.

Definition fair (sch : Schedule) : Prop := forall l, Permutation (sch l) l.

Section Scrapers.

(** [settings_manager.settings] *)
Variable cfg : Settings.

(** [wall n] is the [n]-th reading of [datetime.now()]. *)
Variable wall : nat -> Z.

(** [_parse_results] of [program.scrapers.shared], the external ranker. *)
Variable _parse_results :
  MediaItem -> Dict.t string -> bool -> Outcome (Dict.t Stream).

Definition datetime_now : St Z :=
  fun w => (wall (ticks w), mkWorld (S (ticks w)) (trace w)).

(** The local [scrape_time] of [should_submit], in seconds. *)
Definition scrape_time (times : Z) : Q :=
  if (2 <=? times) && (times <=? 5) then (after_2 cfg * 60 * 60)%Q
  else if (5 <? times) && (times <=? 10) then (after_5 cfg * 60 * 60)%Q
  else if 10 <? times then (after_10 cfg * 60 * 60)%Q
  else (5 * 60)%Q.

Definition should_submit (item : MediaItem) : St bool :=
  let scrape_time := scrape_time (scraped_times (base item)) in
  match scraped_at (base item) with
  | None => ret true
  | Some at_ =>
      now <- datetime_now ;;
      ret (Qgtb (total_seconds (now - at_)) scrape_time)
  end.

Definition can_we_scrape (item : MediaItem) : St bool :=
  if negb (is_released (base item)) then
    emit (LoggerDebug (MsgNotReleased (log_string (base item)))) ;;
    ret false
  else
    ok <- should_submit item ;;
    if negb ok then
      emit (LoggerDebug (MsgBackingOff (log_string (base item)))) ;;
      ret false
    else ret true.

Definition validate (self : Scraping) : bool :=
  existsb initialized (services self).

Definition not_completed (b : ItemBase) : bool :=
  negb (States_eqb (state b) Completed).

(** The condition of the comprehensions over children:
    [c.state != States.Completed and c.is_released and self.should_submit(c)],
    with the short-circuit of [and]. *)
Definition incomplete_child (c : MediaItem) : St bool :=
  if not_completed (base c) && is_released (base c)
  then should_submit c
  else ret false.

Definition yield_incomplete_children (item : MediaItem) : St (option (list MediaItem)) :=
  match item with
  | ISeason se =>
      l <- filterM (fun e => incomplete_child (IEpisode e)) (episodes se) ;;
      ret (Some (map IEpisode l))
  | IShow sh =>
      l <- filterM (fun s => incomplete_child (ISeason s)) (seasons sh) ;;
      ret (Some (map ISeason l))
  | _ => ret None
  end.

(** The three shapes [partial_state] returns: [False], a list, the item. *)
Inductive Partial : Type :=
| PFalse
| PList (l : list MediaItem)
| PItem (item : MediaItem).

Definition released_incomplete (e : Episode) : bool :=
  is_released (episode_base e) && not_completed (episode_base e).

(** One turn of the loop [for s in sres] of [partial_state]. *)
Definition partial_step (res : list MediaItem) (s : Season) : list MediaItem :=
  if forallb released_incomplete (episodes s)
  then res ++ [ISeason s]
  else res ++ map IEpisode (filter released_incomplete (episodes s)).

Definition partial_state (item : MediaItem) : St Partial :=
  if negb (States_eqb (last_state (base item)) PartiallyCompleted)
  then ret PFalse
  else
    ok <- can_we_scrape item ;;
    if ok then ret PFalse
    else
      match item with
      | IShow sh =>
          sres <- filterM (fun s => incomplete_child (ISeason s)) (seasons sh) ;;
          ret (PList (fold_left partial_step sres []))
      | ISeason se =>
          ret (PList (map IEpisode
                        (filter (fun e => is_released (episode_base e)) (episodes se))))
      | _ => ret (PItem item)
      end.

(** The worker [run_service] of [scrape]: the query runs outside the lock,
    the merge inside it.  [acc] is the pair of the shared [results] and
    [total_results].  A query that raises ends its thread before the
    merge: the interpreter reports it and the shared state is untouched. *)
Definition run_service (item : MediaItem) (acc : Dict.t string * Z)
           (service : Service) : St (Dict.t string * Z) :=
  emit (BackendQuery (service_name service)) ;;
  match service_run service item with
  | Raised e =>
      emit (ThreadExcepthook (service_name service) e) ;;
      ret acc
  | Returned service_results =>
      ret (Dict.update (fst acc) service_results,
           snd acc + Dict.len service_results)
  end.

(** Start and join: the workers in the order they take the lock. *)
Fixpoint join (workers : list Service) (item : MediaItem)
         (acc : Dict.t string * Z) : St (Dict.t string * Z) :=
  match workers with
  | [] => ret acc
  | service :: rest =>
      acc' <- run_service item acc service ;;
      join rest item acc'
  end.

Definition threads (self : Scraping) : list Service :=
  filter initialized (services self).

Definition log_parsed (item : MediaItem) (sorted_tor : Stream) : St unit :=
  when (match item with IMovie _ | IShow _ => true | _ => false end)
       (emit (LoggerDebug (MsgParsed (kind_of item) sorted_tor))) ;;
  match item with
  | ISeason _ => emit (LoggerDebug (MsgParsed KSeason sorted_tor))
  | IEpisode _ => emit (LoggerDebug (MsgParsed KEpisode sorted_tor))
  | _ => ret tt
  end.

Definition scrape (self : Scraping) (sch : Schedule) (item : MediaItem)
           (log : bool) : St (Outcome (Dict.t Stream)) :=
  acc <- join (sch (threads self)) item ([], 0) ;;
  let results := fst acc in
  let total_results := snd acc in
  when (negb (total_results =? Dict.len results))
       (emit (LoggerDebug (MsgDuplicates (log_string (base item)) total_results
                                         (total_results - Dict.len results)))) ;;
  match _parse_results item results log with
  | Raised e => ret (Raised e)
  | Returned sorted_streams =>
      when (negb (Nat.eqb (List.length sorted_streams) 0) && (log && debug cfg))
           (forM_ (firstn 10 (Dict.values sorted_streams)) (log_parsed item)) ;;
      ret (Returned sorted_streams)
  end.

(** [stream in l] *)
Definition stream_in (stream : Stream) (l : list Stream) : bool :=
  existsb (Stream_eqb stream) l.

(** One turn of the loop of [run]:
    [if stream not in item.streams: item.streams.append(stream)]. *)
Definition append_new (l : list Stream) (stream : Stream) : list Stream :=
  if negb (stream_in stream l) then l ++ [stream] else l.

(** The tail of [run]: the NOT_FOUND notice and the single [yield]. *)
Definition finish (item : MediaItem) : St (Outcome (list MediaItem) * MediaItem) :=
  when (match streams (base item) with [] => true | _ => false end)
       (emit (LoggerLog "NOT_FOUND" (MsgNoGoodResults (log_string (base item))))) ;;
  ret (Returned [item], item).

(** [run] mutates [item] in place: the result pairs what the generator
    gives its caller (the values yielded, or the exception raised) with
    the item as the call leaves it. *)
Definition run (self : Scraping) (sch : Schedule) (item : MediaItem)
  : St (Outcome (list MediaItem) * MediaItem) :=
  ok <- can_we_scrape item ;;
  if ok then
    r <- scrape self sch item true ;;
    match r with
    | Raised e => ret (Raised e, item)
    | Returned sorted_streams =>
        let item1 :=
          set_streams item
            (fold_left append_new (Dict.values sorted_streams) (streams (base item))) in
        now <- datetime_now ;;
        let item2 := set_scraped_at item1 (Some now) in
        let item3 := set_scraped_times item2 (scraped_times (base item2) + 1) in
        finish item3
    end
  else finish item.

End Scrapers.

(* ------------------------------------------------------------------ *)
(** ** Notions used by the statements *)

(** The events a computation adds to the trace of the world it starts in. *)
Definition new_events {A} (m : St A) (w : World) : list Event :=
  skipn (List.length (trace w)) (trace (snd (m w))).

Definition queries (tr : list Event) : list string :=
  flat_map (fun ev => match ev with BackendQuery th => [th] | _ => [] end) tr.

Definition excepthooks (tr : list Event) : list (string * Exn) :=
  flat_map (fun ev => match ev with ThreadExcepthook th e => [(th, e)] | _ => [] end) tr.

(** The [(total, removed)] pairs of the duplicate notices of a trace. *)
Definition duplicate_notices (tr : list Event) : list (Z * Z) :=
  flat_map (fun ev => match ev with
                      | LoggerDebug (MsgDuplicates _ total removed) => [(total, removed)]
                      | _ => []
                      end) tr.

(** The mappings offered by the workers whose query returned. *)
Definition returned_of (item : MediaItem) (workers : list Service) : list (Dict.t string) :=
  flat_map (fun s => match service_run s item with
                     | Returned d => [d]
                     | Raised _ => []
                     end) workers.

(** The number of key-value pairs offered by all those workers. *)
Definition total_offered (item : MediaItem) (workers : list Service) : Z :=
  fold_right Z.add 0 (map Dict.len (returned_of item workers)).

(** The events of a fan-out over [workers]. *)
Definition join_events (item : MediaItem) (workers : list Service) : list Event :=
  flat_map (fun s => BackendQuery (service_name s) ::
                     match service_run s item with
                     | Raised e => [ThreadExcepthook (service_name s) e]
                     | Returned _ => []
                     end) workers.

(** The locals [results] and [total_results] of [scrape] at the barrier. *)
Definition merged_mapping (self : Scraping) (sch : Schedule) (item : MediaItem)
  : Dict.t string :=
  fst (fst (join (sch (threads self)) item ([], 0) (mkWorld 0 []))).

Definition total_results (self : Scraping) (sch : Schedule) (item : MediaItem) : Z :=
  snd (fst (join (sch (threads self)) item ([], 0) (mkWorld 0 []))).

(** The frontier unit of one pending season, in the words of the spec: the
    season itself when all its episodes are released and incomplete, its
    released incomplete episodes otherwise. *)
Definition frontier_unit (s : Season) : list MediaItem :=
  if forallb released_incomplete (episodes s)
  then [ISeason s]
  else map IEpisode (filter released_incomplete (episodes s)).


(* ------------------------------------------------------------------ *)
(** ** Sample inputs *)

Module Sample.

Definition settings : Settings := mkSettings 2 6 24 false.

Definition minute : Z := 60 * 1000000.
Definition hour : Z := 60 * minute.

(** A clock that stands at [t], and one that has advanced by an hour at
    each reading. *)
Definition frozen (t : Z) : nat -> Z := fun _ => t.
Definition hourly : nat -> Z := fun n => Z.of_nat n * hour.

Definition w0 : World := mkWorld 0 [].

Definition attrs (name : string) (st : States) (released : bool)
           (at_ : option Z) (times : Z) : ItemBase :=
  mkBase name st PartiallyCompleted released at_ times [].

Definition requested : States := OtherState "Requested".

(** A movie last scraped at time 0. *)
Definition movie (times : Z) : MediaItem :=
  IMovie (attrs "movie" requested true (Some 0) times).

(** A movie never scraped. *)
Definition fresh_movie : MediaItem :=
  IMovie (attrs "movie" requested true None 0).

Definition episode (name : string) (st : States) (released : bool) : Episode :=
  mkEpisode (attrs name st released None 0).

Definition a1 : Episode := episode "A1" requested true.
Definition a2 : Episode := episode "A2" requested true.
Definition b1 : Episode := episode "B1" Completed true.
Definition b2 : Episode := episode "B2" requested true.
Definition b3 : Episode := episode "B3" requested false.

(** Season A: every episode released and incomplete.  Season B: one
    episode completed, one pending, one not released. *)
Definition season_a : Season :=
  mkSeason (attrs "season A" requested true None 0) [a1; a2].
Definition season_b : Season :=
  mkSeason (attrs "season B" PartiallyCompleted true None 0) [b1; b2; b3].

(** A partially completed show scraped at time 0. *)
Definition show : MediaItem :=
  IShow (mkShow (attrs "show" PartiallyCompleted true (Some 0) 0)
                [season_a; season_b]).

Definition torrentio : Service :=
  mkService "Torrentio" true (fun _ => Returned [("X", "Title.One")]).
Definition zilean : Service :=
  mkService "Zilean" true (fun _ => Returned [("X", "Title.Two")]).
Definition jackett : Service :=
  mkService "Jackett" true (fun _ => Returned [("Y", "Title.Three")]).
Definition comet : Service :=
  mkService "Comet" true (fun _ => Raised "timeout").
Definition orionoid : Service :=
  mkService "Orionoid" false (fun _ => Returned [("Z", "Title.Four")]).

Definition two_backends : Scraping :=
  mkScraping [torrentio; orionoid; zilean].
Definition three_backends : Scraping :=
  mkScraping [torrentio; comet; orionoid; jackett].

(** A ranker that keeps every result, and one that fails. *)
Definition rank_all (item : MediaItem) (results : Dict.t string) (log : bool)
  : Outcome (Dict.t Stream) :=
  Returned (map (fun kv => (fst kv, mkStream (fst kv) (snd kv) (snd kv) 1)) results).

Definition rank_fails (item : MediaItem) (results : Dict.t string) (log : bool)
  : Outcome (Dict.t Stream) :=
  Raised "ranking failed".

(** Workers taking the lock in the order they were started, or in the
    opposite order. *)
Definition in_order : Schedule := fun l => l.
Definition reversed : Schedule := fun l => rev l.

End Sample.

(* ------------------------------------------------------------------ *)
(** ** Lookups and further views of the trace *)

(** [d.get(k)] *)
Fixpoint dict_get {V} (k : string) (d : Dict.t V) : option V :=
  match d with
  | [] => None
  | (k', v) :: d' => if String.eqb k k' then Some v else dict_get k d'
  end.

(** The [(level, who)] pairs of the "no good results" notices of a trace. *)
Definition not_found_notices (tr : list Event) : list (string * string) :=
  flat_map (fun ev => match ev with
                      | LoggerLog level (MsgNoGoodResults who) => [(level, who)]
                      | _ => []
                      end) tr.

(** The [(label, stream)] pairs of the "Parsed ..." debug lines of a trace. *)
Definition parsed_lines (tr : list Event) : list (Kind * Stream) :=
  flat_map (fun ev => match ev with
                      | LoggerDebug (MsgParsed label s) => [(label, s)]
                      | _ => []
                      end) tr.

(** The debug line [log_parsed] writes for one ranked stream. *)
Definition parsed_event (item : MediaItem) (s : Stream) : Event :=
  LoggerDebug (MsgParsed (kind_of item) s).

(** The duplicate notice of [scrape], when there is one. *)
Definition duplicate_events (self : Scraping) (sch : Schedule) (item : MediaItem)
  : list Event :=
  if total_results self sch item =? Dict.len (merged_mapping self sch item)
  then []
  else [LoggerDebug (MsgDuplicates (log_string (base item))
          (total_results self sch item)
          (total_results self sch item - Dict.len (merged_mapping self sch item)))].

(** The debug lines of the ranking: the ten best streams at most, and only
    when both [log] and the global debug flag are set. *)
Definition ranking_events (cfg : Settings)
           (_parse_results :
              MediaItem -> Dict.t string -> bool -> Outcome (Dict.t Stream))
           (self : Scraping) (sch : Schedule) (item : MediaItem)
           (log : bool) : list Event :=
  match _parse_results item (merged_mapping self sch item) log with
  | Returned sorted_streams =>
      if log && debug cfg
      then map (parsed_event item) (firstn 10 (Dict.values sorted_streams))
      else []
  | Raised _ => []
  end.

(** What the tail of [run] logs for an item: the NOT_FOUND notice when the
    item has no stream. *)
Definition not_found_event (item : MediaItem) : list Event :=
  match streams (base item) with
  | [] => [LoggerLog "NOT_FOUND" (MsgNoGoodResults (log_string (base item)))]
  | _ :: _ => []
  end.

(** The children of a composite item, as items. *)
Definition children (item : MediaItem) : list MediaItem :=
  match item with
  | IShow sh => map ISeason (seasons sh)
  | ISeason se => map IEpisode (episodes se)
  | IMovie _ | IEpisode _ => []
  end.

(** An item is pending at a reading [now] of the clock: not completed,
    released, and past its backoff interval (or never scraped). *)
Definition pending_at (cfg : Settings) (now : Z) (c : MediaItem) : bool :=
  not_completed (base c) && is_released (base c) &&
  match scraped_at (base c) with
  | None => true
  | Some at_ => Qgtb (total_seconds (now - at_))
                     (scrape_time cfg (scraped_times (base c)))
  end.

(* ------------------------------------------------------------------ *)
(** ** The backoff policy in Python's arithmetic *)

(** The view of the trace that holds what the code itself logged. *)
Definition logger_events (tr : list Event) : list Event :=
  filter (fun ev => match ev with
                    | LoggerDebug _ | LoggerLog _ _ => true
                    | BackendQuery _ | ThreadExcepthook _ _ => false
                    end) tr.

(** A Python number: an [int], of any size, or a [float], a binary64 in
    the representation of the standard library's specification (mantissa of
    53 bits, exponent of infinities 1024). *)
Inductive PyNum : Type :=
| PyInt (z : Z)
| PyFloat (f : spec_float).

(** [float(z)]: the nearest binary64, ties to even. *)
Definition float_of_int (z : Z) : spec_float :=
  binary_normalize 53 1024 z 0 false.

(** An integer as a numerator or denominator of a true division. *)
Definition exact_int (z : Z) : spec_float :=
  match z with
  | Z0 => S754_zero false
  | Zpos p => S754_finite false p 0
  | Zneg p => S754_finite true p 0
  end.

(** [x * k] for an int [k]: exact on an int, one rounded product on a
    float. *)
Definition py_mul_int (x : PyNum) (k : Z) : PyNum :=
  match x with
  | PyInt z => PyInt (z * k)
  | PyFloat f => PyFloat (SFmul 53 1024 f (float_of_int k))
  end.

(** [timedelta.total_seconds()] of a difference of [delta] microseconds:
    the true division [delta / 10**6], correctly rounded. *)
Definition timedelta_total_seconds (delta : Z) : spec_float :=
  SFdiv 53 1024 (exact_int delta) (float_of_int 1000000).

(** [f > z] for a float and an int: Python compares the two values
    exactly. *)
Definition float_gt_int (f : spec_float) (z : Z) : bool :=
  match f with
  | S754_nan => false
  | S754_infinity s => negb s
  | S754_zero _ => z <? 0
  | S754_finite s m e =>
      let v := if s then Zneg m else Zpos m in
      if 0 <=? e then z <? v * 2 ^ e else z * 2 ^ (- e) <? v
  end.

(** The rational number a finite float stands for. *)
Definition float_value (f : spec_float) : option Q :=
  match f with
  | S754_zero _ => Some 0%Q
  | S754_finite s m e =>
      let v := if s then Zneg m else Zpos m in
      Some (if 0 <=? e then inject_Z (v * 2 ^ e)
            else v # Z.to_pos (2 ^ (- e)))
  | S754_infinity _ | S754_nan => None
  end.

(** [f > y] *)
Definition py_gt (f : spec_float) (y : PyNum) : bool :=
  match y with
  | PyInt z => float_gt_int f z
  | PyFloat g => SFltb g f
  end.

(** [settings.scraping] with the multipliers as Python numbers. *)
Record PySettings : Type := mkPySettings {
  after_2_num : PyNum;
  after_5_num : PyNum;
  after_10_num : PyNum
}.

(** The local [scrape_time] of [should_submit], as Python computes it. *)
Definition scrape_time_py (cfg : PySettings) (times : Z) : PyNum :=
  if (2 <=? times) && (times <=? 5)
  then py_mul_int (py_mul_int (after_2_num cfg) 60) 60
  else if (5 <? times) && (times <=? 10)
  then py_mul_int (py_mul_int (after_5_num cfg) 60) 60
  else if 10 <? times
  then py_mul_int (py_mul_int (after_10_num cfg) 60) 60
  else PyInt (5 * 60).

Definition should_submit_py (cfg : PySettings) (wall : nat -> Z)
           (item : MediaItem) : St bool :=
  let scrape_time := scrape_time_py cfg (scraped_times (base item)) in
  match scraped_at (base item) with
  | None => ret true
  | Some at_ =>
      now <- datetime_now wall ;;
      ret (py_gt (timedelta_total_seconds (now - at_)) scrape_time)
  end.

Module PySample.

(** 0.512 and 0.7 as binary64. *)
Definition f0_512 : spec_float := S754_finite false 4611686018427388 (-53).
Definition f0_7 : spec_float := S754_finite false 6305039478318694 (-53).

(** The multipliers 2, 6 and 24 as ints and as floats. *)
Definition ints : PySettings := mkPySettings (PyInt 2) (PyInt 6) (PyInt 24).
Definition floats : PySettings :=
  mkPySettings (PyFloat (float_of_int 2)) (PyFloat (float_of_int 6))
               (PyFloat (float_of_int 24)).

(** An int multiplier of six million hours for the last tier. *)
Definition far : PySettings :=
  mkPySettings (PyInt 2) (PyInt 6) (PyInt 6000000).

(** A float multiplier of 0.512 hours for the tier of 2 to 5 scrapes. *)
Definition fraction : PySettings :=
  mkPySettings (PyFloat f0_512) (PyInt 6) (PyInt 24).

End PySample.

(* ------------------------------------------------------------------ *)
(** ** Facts about dicts *)

Module DictFacts.
Import Dict.

Lemma keys_set_in {V} (k : string) (v : V) (d : t V) (k' : string) :
  In k' (keys (set k v d)) <-> k' = k \/ In k' (keys d).
Proof.
  induction d as [|[k0 v0] d IH]; simpl.
  - intuition.
  - destruct (String.eqb_spec k k0) as [->|Hne]; simpl.
    + intuition.
    + unfold keys in IH. rewrite IH. intuition.
Qed.

Lemma set_wf {V} (k : string) (v : V) (d : t V) : wf d -> wf (set k v d).
Proof.
  unfold wf. induction d as [|[k0 v0] d IH]; simpl; intros Hd.
  - constructor; [intros [] | constructor].
  - inversion Hd as [|? ? Hnotin Hrest]; subst.
    destruct (String.eqb_spec k k0) as [->|Hne]; simpl.
    + constructor; assumption.
    + constructor.
      * intros Hin. apply (keys_set_in k v d k0) in Hin.
        destruct Hin as [Heq|Hin]; [congruence | contradiction].
      * apply IH; assumption.
Qed.

Lemma update_wf {V} (other d : t V) : wf d -> wf (update d other).
Proof.
  unfold update. revert d.
  induction other as [|[k v] other IH]; simpl; intros d Hd.
  - assumption.
  - apply IH, set_wf, Hd.
Qed.

Lemma wf_nil {V} : wf (@nil (string * V)).
Proof. constructor. Qed.

(** Merging any sequence of mappings into a dict gives a dict. *)
Lemma fold_update_wf {V} (ds : list (t V)) (d : t V) :
  wf d -> wf (fold_left update ds d).
Proof.
  revert d. induction ds as [|d0 ds IH]; simpl; intros d Hd.
  - assumption.
  - apply IH, update_wf, Hd.
Qed.

End DictFacts.

(* ------------------------------------------------------------------ *)
(** ** Facts about the merge of ranked streams into [item.streams] *)

Lemma Stream_eqb_refl (s : Stream) : Stream_eqb s s = true.
Proof. unfold Stream_eqb. apply String.eqb_refl. Qed.

Lemma stream_in_app (s : Stream) (l l' : list Stream) :
  stream_in s (l ++ l') = stream_in s l || stream_in s l'.
Proof. unfold stream_in. apply existsb_app. Qed.

Lemma stream_in_infohash (s : Stream) (l : list Stream) :
  stream_in s l = true <-> In (infohash s) (map infohash l).
Proof.
  unfold stream_in. rewrite existsb_exists, in_map_iff. split.
  - intros [x [Hin Heq]]. exists x. split; [|assumption].
    unfold Stream_eqb in Heq. apply String.eqb_eq in Heq. congruence.
  - intros [x [Heq Hin]]. exists x. split; [assumption|].
    unfold Stream_eqb. apply String.eqb_eq. congruence.
Qed.

Lemma append_new_keeps (s x : Stream) (l : list Stream) :
  stream_in s l = true -> stream_in s (append_new l x) = true.
Proof.
  intros H. unfold append_new. destruct (stream_in x l); simpl.
  - assumption.
  - rewrite stream_in_app, H. reflexivity.
Qed.

Lemma append_new_has (x : Stream) (l : list Stream) :
  stream_in x (append_new l x) = true.
Proof.
  unfold append_new. destruct (stream_in x l) eqn:E; simpl.
  - assumption.
  - rewrite stream_in_app. simpl. rewrite Stream_eqb_refl.
    apply orb_true_iff. right. reflexivity.
Qed.

Lemma merge_keeps (vs : list Stream) (s : Stream) (l : list Stream) :
  stream_in s l = true -> stream_in s (fold_left append_new vs l) = true.
Proof.
  revert l. induction vs as [|x vs IH]; simpl; intros l H.
  - assumption.
  - apply IH, append_new_keeps, H.
Qed.

Lemma merge_covers (vs : list Stream) (s : Stream) (l : list Stream) :
  In s vs -> stream_in s (fold_left append_new vs l) = true.
Proof.
  revert l. induction vs as [|x vs IH]; simpl; intros l Hin.
  - contradiction.
  - destruct Hin as [->|Hin].
    + apply merge_keeps, append_new_has.
    + apply IH, Hin.
Qed.

Lemma merge_fixed (vs : list Stream) (l : list Stream) :
  (forall s, In s vs -> stream_in s l = true) ->
  fold_left append_new vs l = l.
Proof.
  revert l. induction vs as [|x vs IH]; simpl; intros l H.
  - reflexivity.
  - unfold append_new at 2. rewrite (H x (or_introl eq_refl)). simpl.
    apply IH. intros s Hs. apply H. right. assumption.
Qed.

(** Merging the same ranked streams a second time appends nothing. *)
Lemma merge_idempotent (vs l : list Stream) :
  fold_left append_new vs (fold_left append_new vs l) = fold_left append_new vs l.
Proof. apply merge_fixed. intros s Hs. apply merge_covers, Hs. Qed.

Lemma append_new_nodup (x : Stream) (l : list Stream) :
  NoDup (map infohash l) -> NoDup (map infohash (append_new l x)).
Proof.
  intros Hl. unfold append_new. destruct (stream_in x l) eqn:E; simpl.
  - assumption.
  - rewrite map_app. simpl.
    apply NoDup_app; [assumption | constructor; [intros [] | constructor] |].
    intros a Ha [Heq|[]]. subst a.
    apply stream_in_infohash in Ha. congruence.
Qed.

Lemma merge_nodup (vs l : list Stream) :
  NoDup (map infohash l) -> NoDup (map infohash (fold_left append_new vs l)).
Proof.
  revert l. induction vs as [|x vs IH]; simpl; intros l Hl.
  - assumption.
  - apply IH, append_new_nodup, Hl.
Qed.

(* ------------------------------------------------------------------ *)
(** ** The backoff policy and the eligibility gate *)

Lemma Qgtb_spec (x y : Q) : Qgtb x y = true <-> (y < x)%Q.
Proof.
  unfold Qgtb. rewrite negb_true_iff. split.
  - intros H. apply Qnot_le_lt. intros Hle.
    apply Qle_bool_iff in Hle. congruence.
  - intros H. destruct (Qle_bool x y) eqn:E; [|reflexivity].
    apply Qle_bool_iff in E. exfalso. apply (Qlt_not_le _ _ H E).
Qed.

Lemma total_seconds_mono (d1 d2 : Z) :
  d1 <= d2 -> (total_seconds d1 <= total_seconds d2)%Q.
Proof.
  intros H. unfold total_seconds, Qle. simpl. nia.
Qed.

Ltac st_unfold :=
  unfold bind, ret, emit, when, datetime_now in *; simpl in *.

Section BackoffFacts.

Variable cfg : Settings.
Variable wall : nat -> Z.

(** The value of [should_submit] in a world whose next clock reading is
    [wall (ticks w)]. *)
Lemma should_submit_value (item : MediaItem) (w : World) :
  fst (should_submit cfg wall item w) =
  match scraped_at (base item) with
  | None => true
  | Some at_ => Qgtb (total_seconds (wall (ticks w) - at_))
                     (scrape_time cfg (scraped_times (base item)))
  end.
Proof.
  unfold should_submit. destruct (scraped_at (base item)); reflexivity.
Qed.

(** [should_submit] logs nothing. *)
Lemma should_submit_trace (item : MediaItem) (w : World) :
  trace (snd (should_submit cfg wall item w)) = trace w.
Proof.
  unfold should_submit. destruct (scraped_at (base item)); reflexivity.
Qed.

(** Comparing a finite float with an int compares the number the float
    stands for with the int. *)
Lemma float_gt_int_value (f : spec_float) (z : Z) (q : Q) :
  float_value f = Some q ->
  (float_gt_int f z = true <-> (inject_Z z < q)%Q).
Proof.
  destruct f as [s|s| |s m e]; simpl; try discriminate.
  - intros Hq. injection Hq as <-. rewrite Z.ltb_lt.
    unfold Qlt, inject_Z. simpl. lia.
  - intros Hq. injection Hq as <-.
    destruct (0 <=? e) eqn:Ee.
    + rewrite Z.ltb_lt. unfold Qlt, inject_Z. simpl. lia.
    + rewrite Z.ltb_lt. apply Z.leb_gt in Ee.
      assert (Hpow : 0 < 2 ^ (- e)) by (apply Z.pow_pos_nonneg; lia).
      unfold Qlt, inject_Z. cbn [Qnum Qden].
      rewrite Z2Pos.id by exact Hpow. lia.
Qed.

(** The value of [should_submit_py], the same function in Python's
    arithmetic. *)
Lemma should_submit_py_value (pycfg : PySettings) (item : MediaItem) (w : World) :
  fst (should_submit_py pycfg wall item w) =
  match scraped_at (base item) with
  | None => true
  | Some at_ => py_gt (timedelta_total_seconds (wall (ticks w) - at_))
                      (scrape_time_py pycfg (scraped_times (base item)))
  end.
Proof.
  unfold should_submit_py. destruct (scraped_at (base item)); reflexivity.
Qed.

(** C1. [should_submit] holds exactly when [scraped_at] is unset or
    [total_seconds()] of the time elapsed since [scraped_at] (the elapsed
    microseconds over 10^6, rounded to the nearest binary64) is greater
    than the interval of the tier of [scraped_times] as Python computes it:
    [5 * 60] for 0-1, [after_2 * 60 * 60] for 2-5, [after_5 * 60 * 60] for
    6-10, [after_10 * 60 * 60] above 10, exact for an int setting and two
    rounded products for a float one.  Against an int interval the
    comparison is that of the number the float stands for with the int.
    With [scraped_times = 3] and
    [after_2 = 2], int or float, 1h59m elapsed is not eligible and 2h01m
    elapsed is. *)
Theorem should_submit_py_backoff_tiers :
  forall (pycfg : PySettings) (item : MediaItem) (w : World),
    (fst (should_submit_py pycfg wall item w) = true <->
       scraped_at (base item) = None \/
       exists at_, scraped_at (base item) = Some at_ /\
         py_gt (timedelta_total_seconds (wall (ticks w) - at_))
               (scrape_time_py pycfg (scraped_times (base item))) = true)
    /\ (forall n, 0 <= n <= 1 -> scrape_time_py pycfg n = PyInt (5 * 60))
    /\ (forall n, 2 <= n <= 5 ->
          scrape_time_py pycfg n = py_mul_int (py_mul_int (after_2_num pycfg) 60) 60)
    /\ (forall n, 6 <= n <= 10 ->
          scrape_time_py pycfg n = py_mul_int (py_mul_int (after_5_num pycfg) 60) 60)
    /\ (forall n, 10 < n ->
          scrape_time_py pycfg n = py_mul_int (py_mul_int (after_10_num pycfg) 60) 60)
    /\ (forall h, py_mul_int (py_mul_int (PyInt h) 60) 60 = PyInt (h * 60 * 60))
    /\ (forall f z q, float_value f = Some q ->
          (py_gt f (PyInt z) = true <-> (inject_Z z < q)%Q))
    /\ (forall at_,
          after_2_num pycfg = PyInt 2 \/
          after_2_num pycfg = PyFloat (float_of_int 2) ->
          scraped_times (base item) = 3 ->
          scraped_at (base item) = Some at_ ->
          (wall (ticks w) = at_ + (1 * 3600 + 59 * 60) * 1000000 ->
             fst (should_submit_py pycfg wall item w) = false) /\
          (wall (ticks w) = at_ + (2 * 3600 + 1 * 60) * 1000000 ->
             fst (should_submit_py pycfg wall item w) = true)).
Proof.
  intros pycfg item w. rewrite should_submit_py_value.
  split; [|split; [|split; [|split; [|split; [|split; [|split]]]]]].
  - destruct (scraped_at (base item)) as [at_|] eqn:E.
    + split.
      * intros H. right. exists at_. split; [reflexivity | exact H].
      * intros [H|[a [Ha H]]]; [discriminate|]. injection Ha as <-. exact H.
    + split; [intros _; left; reflexivity | reflexivity].
  - intros n Hn. unfold scrape_time_py.
    replace ((2 <=? n) && (n <=? 5)) with false by lia.
    replace ((5 <? n) && (n <=? 10)) with false by lia.
    replace (10 <? n) with false by lia. reflexivity.
  - intros n Hn. unfold scrape_time_py.
    replace ((2 <=? n) && (n <=? 5)) with true by lia. reflexivity.
  - intros n Hn. unfold scrape_time_py.
    replace ((2 <=? n) && (n <=? 5)) with false by lia.
    replace ((5 <? n) && (n <=? 10)) with true by lia. reflexivity.
  - intros n Hn. unfold scrape_time_py.
    replace ((2 <=? n) && (n <=? 5)) with false by lia.
    replace ((5 <? n) && (n <=? 10)) with false by lia.
    replace (10 <? n) with true by lia. reflexivity.
  - intros h. reflexivity.
  - intros f z q Hq. apply float_gt_int_value, Hq.
  - intros at_ H2 Ht Hat. rewrite Hat, Ht.
    change (scrape_time_py pycfg 3)
      with (py_mul_int (py_mul_int (after_2_num pycfg) 60) 60).
    split; intros ->.
    + replace (at_ + (1 * 3600 + 59 * 60) * 1000000 - at_) with 7140000000 by lia.
      destruct H2 as [-> | ->]; vm_compute; reflexivity.
    + replace (at_ + (2 * 3600 + 1 * 60) * 1000000 - at_) with 7260000000 by lia.
      destruct H2 as [-> | ->]; vm_compute; reflexivity.
Qed.

Lemma should_submit_later (item : MediaItem) (w1 w2 : World) :
  wall (ticks w1) <= wall (ticks w2) ->
  fst (should_submit cfg wall item w1) = true ->
  fst (should_submit cfg wall item w2) = true.
Proof.
  intros Hle. rewrite !should_submit_value.
  destruct (scraped_at (base item)) as [at_|]; [|reflexivity].
  rewrite !Qgtb_spec. intros H.
  eapply Qlt_le_trans; [exact H|].
  apply total_seconds_mono. lia.
Qed.


Lemma can_we_scrape_value (item : MediaItem) (w : World) :
  fst (can_we_scrape cfg wall item w) =
  is_released (base item) && fst (should_submit cfg wall item w).
Proof.
  unfold can_we_scrape.
  destruct (is_released (base item)); simpl; [|reflexivity].
  unfold bind. destruct (should_submit cfg wall item w) as [ok w'].
  destruct ok; reflexivity.
Qed.

(** C5. [can_we_scrape] is true exactly when the item is released and
    [should_submit] holds; it is false when either fails. *)
Theorem can_we_scrape_released_and_should_submit :
  forall (item : MediaItem) (w : World),
    (fst (can_we_scrape cfg wall item w) = true <->
       is_released (base item) = true /\
       fst (should_submit cfg wall item w) = true)
    /\ (is_released (base item) = false ->
          fst (can_we_scrape cfg wall item w) = false)
    /\ (fst (should_submit cfg wall item w) = false ->
          fst (can_we_scrape cfg wall item w) = false).
Proof.
  intros item w. rewrite can_we_scrape_value. repeat split.
  - apply andb_true_iff in H. apply H.
  - apply andb_true_iff in H. apply H.
  - intros [-> ->]. reflexivity.
  - intros ->. reflexivity.
  - intros ->. apply andb_false_r.
Qed.

End BackoffFacts.

(* ------------------------------------------------------------------ *)
(** ** The hierarchy walker *)

Lemma States_eqb_eq (a b : States) : States_eqb a b = true <-> a = b.
Proof.
  destruct a, b; simpl; split; intros H;
    try reflexivity; try discriminate.
  - apply String.eqb_eq in H. congruence.
  - injection H as ->. apply String.eqb_refl.
Qed.

Lemma partial_loop_flat_map (sres : list Season) (res : list MediaItem) :
  fold_left partial_step sres res = res ++ flat_map frontier_unit sres.
Proof.
  revert res. induction sres as [|s sres IH]; simpl; intros res.
  - symmetry. apply app_nil_r.
  - rewrite IH. unfold partial_step, frontier_unit.
    destruct (forallb released_incomplete (episodes s));
      rewrite <- app_assoc; reflexivity.
Qed.

Section WalkerFacts.

Variable cfg : Settings.
Variable wall : nat -> Z.

Lemma incomplete_child_value (c : MediaItem) (w : World) :
  fst (incomplete_child cfg wall c w) =
  not_completed (base c) && is_released (base c) &&
  fst (should_submit cfg wall c w).
Proof.
  unfold incomplete_child.
  destruct (not_completed (base c) && is_released (base c)); reflexivity.
Qed.





Lemma partial_state_value (item : MediaItem) (w : World) :
  fst (partial_state cfg wall item w) =
  if negb (States_eqb (last_state (base item)) PartiallyCompleted) then PFalse
  else if fst (can_we_scrape cfg wall item w) then PFalse
  else match item with
       | IShow sh =>
           PList (flat_map frontier_unit
                    (fst (filterM (fun s => incomplete_child cfg wall (ISeason s))
                                  (seasons sh)
                                  (snd (can_we_scrape cfg wall item w)))))
       | ISeason se =>
           PList (map IEpisode
                    (filter (fun e => is_released (episode_base e)) (episodes se)))
       | _ => PItem item
       end.
Proof.
  unfold partial_state.
  destruct (negb (States_eqb (last_state (base item)) PartiallyCompleted));
    [reflexivity|].
  unfold bind. destruct (can_we_scrape cfg wall item w) as [ok w1]. simpl.
  destruct ok; [reflexivity|].
  destruct item; try reflexivity.
  destruct (filterM _ (seasons sh) w1) as [sres w2]. simpl.
  rewrite partial_loop_flat_map. reflexivity.
Qed.



(** C10. For a leaf (Movie or Episode) whose [last_state] is
    [PartiallyCompleted] and that [can_we_scrape] refuses, [partial_state]
    returns the item itself, neither [False] nor a list; a Show or a Season
    in the same situation gets a list, and any item outside it gets
    [False]: three shapes of result. *)
Theorem partial_state_leaf_returns_item :
  forall (item : MediaItem) (w : World),
    is_leaf item = true ->
    last_state (base item) = PartiallyCompleted ->
    fst (can_we_scrape cfg wall item w) = false ->
    fst (partial_state cfg wall item w) = PItem item
    /\ fst (partial_state cfg wall item w) <> PFalse
    /\ (forall l, fst (partial_state cfg wall item w) <> PList l)
    /\ (forall other w',
          is_leaf other = false ->
          last_state (base other) = PartiallyCompleted ->
          fst (can_we_scrape cfg wall other w') = false ->
          exists l, fst (partial_state cfg wall other w') = PList l)
    /\ (forall other w',
          last_state (base other) <> PartiallyCompleted \/
          fst (can_we_scrape cfg wall other w') = true ->
          fst (partial_state cfg wall other w') = PFalse).
Proof.
  intros item w Hleaf Hls Hgate.
  assert (Hpc : States_eqb PartiallyCompleted PartiallyCompleted = true)
    by reflexivity.
  assert (Hitem : fst (partial_state cfg wall item w) = PItem item).
  { rewrite partial_state_value, Hls, Hpc, Hgate. simpl.
    destruct item; simpl in Hleaf; try discriminate; reflexivity. }
  rewrite Hitem. split; [reflexivity|]. split; [discriminate|].
  split; [discriminate|]. split.
  - intros other w' Hl Hs Hg.
    rewrite partial_state_value, Hs, Hpc, Hg. simpl.
    destruct other; simpl in Hl; try discriminate; eexists; reflexivity.
  - intros other w' H. rewrite partial_state_value.
    destruct (States_eqb (last_state (base other)) PartiallyCompleted) eqn:E;
      simpl; [|reflexivity].
    apply States_eqb_eq in E.
    destruct H as [H|H]; [contradiction | rewrite H; reflexivity].
Qed.

End WalkerFacts.

(* ------------------------------------------------------------------ *)
(** ** Fan-out and merge *)

Lemma skipn_own_length {A} (l evs : list A) :
  skipn (List.length l) (l ++ evs) = evs.
Proof. induction l as [|x l IH]; simpl; [reflexivity | exact IH]. Qed.

Lemma new_events_of_trace {A} (m : St A) (w : World) (evs : list Event) :
  trace (snd (m w)) = trace w ++ evs -> new_events m w = evs.
Proof. intros H. unfold new_events. rewrite H. apply skipn_own_length. Qed.

Lemma queries_app (l l' : list Event) : queries (l ++ l') = queries l ++ queries l'.
Proof. unfold queries. apply flat_map_app. Qed.

Lemma excepthooks_app (l l' : list Event) :
  excepthooks (l ++ l') = excepthooks l ++ excepthooks l'.
Proof. unfold excepthooks. apply flat_map_app. Qed.

Lemma duplicate_notices_app (l l' : list Event) :
  duplicate_notices (l ++ l') = duplicate_notices l ++ duplicate_notices l'.
Proof. unfold duplicate_notices. apply flat_map_app. Qed.

(** The barrier of [scrape]: what the shared state holds once every worker
    is joined, and what the fan-out left in the trace. *)
Lemma join_spec (workers : list Service) (item : MediaItem)
      (acc : Dict.t string * Z) (w : World) :
  join workers item acc w =
  ((fold_left Dict.update (returned_of item workers) (fst acc),
    snd acc + total_offered item workers),
   mkWorld (ticks w) (trace w ++ join_events item workers)).
Proof.
  revert acc w. induction workers as [|s workers IH]; intros [results total] w.
  - simpl. unfold ret, total_offered. simpl.
    rewrite Z.add_0_r, app_nil_r. destruct w; reflexivity.
  - simpl. unfold bind, run_service, emit, ret, bind.
    unfold returned_of, total_offered, join_events in *. simpl.
    destruct (service_run s item) as [d|e]; simpl; rewrite IH; simpl.
    + rewrite <- app_assoc. simpl. f_equal. f_equal. lia.
    + rewrite <- !app_assoc. simpl. reflexivity.
Qed.

Lemma merged_mapping_fold (self : Scraping) (sch : Schedule) (item : MediaItem) :
  merged_mapping self sch item =
  fold_left Dict.update (returned_of item (sch (threads self))) [].
Proof. unfold merged_mapping. rewrite join_spec. reflexivity. Qed.

Lemma total_results_offered (self : Scraping) (sch : Schedule) (item : MediaItem) :
  total_results self sch item = total_offered item (sch (threads self)).
Proof. unfold total_results. rewrite join_spec. reflexivity. Qed.

Lemma sum_permutation (l l' : list Z) :
  Permutation l l' -> fold_right Z.add 0 l = fold_right Z.add 0 l'.
Proof.
  induction 1; simpl; lia.
Qed.

Lemma returned_of_permutation (item : MediaItem) (l l' : list Service) :
  Permutation l l' -> Permutation (returned_of item l) (returned_of item l').
Proof. intros H. unfold returned_of. apply Permutation_flat_map, H. Qed.

(** The count of offered pairs does not depend on the order of the merges. *)
Lemma total_offered_permutation (item : MediaItem) (l l' : list Service) :
  Permutation l l' -> total_offered item l = total_offered item l'.
Proof.
  intros H. unfold total_offered. apply sum_permutation, Permutation_map.
  apply returned_of_permutation, H.
Qed.

Lemma excepthooks_join_events (item : MediaItem) (workers : list Service) :
  excepthooks (join_events item workers) =
  flat_map (fun s => match service_run s item with
                     | Raised e => [(service_name s, e)]
                     | Returned _ => []
                     end) workers.
Proof.
  induction workers as [|s workers IH]; simpl; [reflexivity|].
  change (BackendQuery (service_name s) :: ?l ++ ?r) with
    ((BackendQuery (service_name s) :: l) ++ r).
  unfold join_events in *. simpl.
  rewrite excepthooks_app, IH.
  destruct (service_run s item); reflexivity.
Qed.

Lemma duplicate_notices_join_events (item : MediaItem) (workers : list Service) :
  duplicate_notices (join_events item workers) = [].
Proof.
  induction workers as [|s workers IH]; simpl; [reflexivity|].
  unfold join_events in *. simpl.
  rewrite duplicate_notices_app, IH.
  destruct (service_run s item); reflexivity.
Qed.

Lemma log_parsed_spec (item : MediaItem) (s : Stream) (w : World) :
  exists evs,
    log_parsed item s w = (tt, mkWorld (ticks w) (trace w ++ evs))
    /\ queries evs = [] /\ excepthooks evs = [] /\ duplicate_notices evs = [].
Proof.
  unfold log_parsed. destruct item; st_unfold.
  - exists [LoggerDebug (MsgParsed KMovie s)]. repeat split.
  - exists [LoggerDebug (MsgParsed KShow s)]. repeat split.
  - exists [LoggerDebug (MsgParsed KSeason s)]. repeat split.
  - exists [LoggerDebug (MsgParsed KEpisode s)]. repeat split.
Qed.

Lemma forM_log_parsed_spec (item : MediaItem) (l : list Stream) (w : World) :
  exists evs,
    forM_ l (log_parsed item) w = (tt, mkWorld (ticks w) (trace w ++ evs))
    /\ queries evs = [] /\ excepthooks evs = [] /\ duplicate_notices evs = [].
Proof.
  revert w. induction l as [|s l IH]; intros w; simpl.
  - exists []. unfold ret. rewrite app_nil_r. destruct w. repeat split.
  - unfold bind.
    destruct (log_parsed_spec item s w) as [e1 [-> [Hq1 [Hx1 Hd1]]]].
    destruct (IH (mkWorld (ticks w) (trace w ++ e1))) as [e2 [-> [Hq2 [Hx2 Hd2]]]].
    exists (e1 ++ e2). simpl. rewrite <- app_assoc.
    rewrite queries_app, excepthooks_app, duplicate_notices_app.
    rewrite Hq1, Hq2, Hx1, Hx2, Hd1, Hd2. repeat split.
Qed.

Section ScrapeFacts.

Variable cfg : Settings.
Variable _parse_results :
  MediaItem -> Dict.t string -> bool -> Outcome (Dict.t Stream).

(** [scrape] as a whole: its result is the ranker's, applied to the merged
    mapping; its events are those of the fan-out, then the duplicate
    notice when the counts differ, then the debug lines of the ranking. *)
Lemma scrape_spec (self : Scraping) (sch : Schedule) (item : MediaItem)
      (log : bool) (w : World) :
  exists parsed,
    scrape cfg _parse_results self sch item log w =
    (_parse_results item (merged_mapping self sch item) log,
     mkWorld (ticks w)
       (trace w ++ join_events item (sch (threads self)) ++
        (if total_results self sch item =? Dict.len (merged_mapping self sch item)
         then []
         else [LoggerDebug (MsgDuplicates (log_string (base item))
                 (total_results self sch item)
                 (total_results self sch item
                  - Dict.len (merged_mapping self sch item)))]) ++
        parsed))
    /\ queries parsed = [] /\ excepthooks parsed = []
    /\ duplicate_notices parsed = [].
Proof.
  unfold scrape, merged_mapping, total_results. unfold bind at 1.
  rewrite !join_spec. cbn [fst snd ticks trace app Z.add].
  set (results := fold_left Dict.update (returned_of item (sch (threads self))) []).
  set (total := total_offered item (sch (threads self))).
  set (evs := join_events item (sch (threads self))).
  unfold bind at 1.
  set (notice := LoggerDebug (MsgDuplicates (log_string (base item)) total
                                            (total - Dict.len results))).
  assert (Hw : when (negb (total =? Dict.len results)) (emit notice)
                    (mkWorld (ticks w) (trace w ++ evs)) =
               (tt, mkWorld (ticks w)
                      (trace w ++ evs ++
                       (if total =? Dict.len results then [] else [notice])))).
  { destruct (total =? Dict.len results); unfold when, emit, ret; simpl.
    - rewrite app_nil_r. reflexivity.
    - rewrite <- app_assoc. reflexivity. }
  rewrite Hw. clear Hw.
  destruct (_parse_results item results log) as [sorted|e].
  - unfold bind, ret, when.
    set (top_results := firstn 10 (Dict.values sorted)).
    destruct (negb (Nat.eqb (List.length sorted) 0) && (log && debug cfg)); simpl.
    + destruct (forM_log_parsed_spec item top_results
                  (mkWorld (ticks w)
                     (trace w ++ evs ++
                      (if total =? Dict.len results then [] else [notice]))))
        as [parsed [-> [Hq [Hx Hd]]]].
      exists parsed. simpl. rewrite <- !app_assoc. repeat split; assumption.
    + exists []. rewrite !app_nil_r. repeat split.
  - exists []. unfold ret. rewrite !app_nil_r. repeat split.
Qed.

End ScrapeFacts.

Section FanOutFacts.

Variable cfg : Settings.
Variable _parse_results :
  MediaItem -> Dict.t string -> bool -> Outcome (Dict.t Stream).

Lemma scrape_value (self : Scraping) (sch : Schedule) (item : MediaItem)
      (log : bool) (w : World) :
  fst (scrape cfg _parse_results self sch item log w) =
  _parse_results item (merged_mapping self sch item) log.
Proof.
  destruct (scrape_spec cfg _parse_results self sch item log w) as [parsed [-> _]].
  reflexivity.
Qed.

Lemma scrape_ticks (self : Scraping) (sch : Schedule) (item : MediaItem)
      (log : bool) (w : World) :
  ticks (snd (scrape cfg _parse_results self sch item log w)) = ticks w.
Proof.
  destruct (scrape_spec cfg _parse_results self sch item log w) as [parsed [-> _]].
  reflexivity.
Qed.

Lemma scrape_duplicate_notices (self : Scraping) (sch : Schedule)
      (item : MediaItem) (log : bool) (w : World) :
  duplicate_notices (new_events (scrape cfg _parse_results self sch item log) w) =
  if total_results self sch item =? Dict.len (merged_mapping self sch item)
  then []
  else [(total_results self sch item,
         total_results self sch item - Dict.len (merged_mapping self sch item))].
Proof.
  destruct (scrape_spec cfg _parse_results self sch item log w)
    as [parsed [Heq [_ [_ Hd]]]].
  erewrite new_events_of_trace by (rewrite Heq; reflexivity).
  rewrite !duplicate_notices_app, duplicate_notices_join_events, Hd, app_nil_r.
  destruct (_ =? _); reflexivity.
Qed.

Lemma scrape_excepthooks (self : Scraping) (sch : Schedule)
      (item : MediaItem) (log : bool) (w : World) :
  excepthooks (new_events (scrape cfg _parse_results self sch item log) w) =
  excepthooks (join_events item (sch (threads self))).
Proof.
  destruct (scrape_spec cfg _parse_results self sch item log w)
    as [parsed [Heq [_ [Hx _]]]].
  erewrite new_events_of_trace by (rewrite Heq; reflexivity).
  rewrite !excepthooks_app, Hx, app_nil_r.
  destruct (_ =? _); simpl; rewrite app_nil_r; reflexivity.
Qed.

(** C4. Whatever the backends return and in whatever order the workers
    merge, the mapping [scrape] hands to the ranker has at most one entry
    per key, and the duplicate count it reports is the number of pairs
    offered by all the workers minus the size of that mapping.  Two
    backends that each offer one result under the same key merge into one
    entry, with one duplicate reported. *)
Theorem scrape_dedups_before_ranking :
  forall (self : Scraping) (sch : Schedule) (item : MediaItem)
         (log : bool) (w : World),
    fair sch ->
    let results := merged_mapping self sch item in
    let total := total_offered item (threads self) in
    NoDup (Dict.keys results)
    /\ fst (scrape cfg _parse_results self sch item log w) =
       _parse_results item results log
    /\ duplicate_notices
         (new_events (scrape cfg _parse_results self sch item log) w) =
       (if total =? Dict.len results then []
        else [(total, total - Dict.len results)])
    /\ (forall a b k v1 v2,
          threads self = [a; b] ->
          service_run a item = Returned [(k, v1)] ->
          service_run b item = Returned [(k, v2)] ->
          Dict.keys results = [k] /\ Dict.len results = 1 /\
          duplicate_notices
            (new_events (scrape cfg _parse_results self sch item log) w) =
          [(2, 1)]).
Proof.
  intros self sch item log w Hfair results total.
  assert (Htotal : total_results self sch item = total).
  { rewrite total_results_offered. apply total_offered_permutation, Hfair. }
  assert (Hnotices :
    duplicate_notices
      (new_events (scrape cfg _parse_results self sch item log) w) =
    (if total =? Dict.len results then []
     else [(total, total - Dict.len results)])).
  { rewrite scrape_duplicate_notices, Htotal. reflexivity. }
  split; [|split; [|split]].
  - subst results. rewrite merged_mapping_fold.
    apply DictFacts.fold_update_wf, DictFacts.wf_nil.
  - apply scrape_value.
  - exact Hnotices.
  - intros a b k v1 v2 Hth Ha Hb.
    assert (Hres : results = [(k, v2)] \/ results = [(k, v1)]).
    { subst results. rewrite merged_mapping_fold, Hth.
      pose proof (Hfair [a; b]) as Hp.
      apply Permutation_sym, Permutation_length_2_inv in Hp.
      destruct Hp as [-> | ->]; unfold returned_of; simpl;
        rewrite Ha, Hb; simpl; rewrite String.eqb_refl; auto. }
    assert (Htot : total = 2).
    { subst total. rewrite Hth. unfold total_offered, returned_of. simpl.
      rewrite Ha, Hb. reflexivity. }
    rewrite Hnotices, Htot.
    destruct Hres as [-> | ->]; repeat split.
Qed.

End FanOutFacts.

(* ------------------------------------------------------------------ *)
(** ** Submission *)

Lemma base_with_base (item : MediaItem) (b : ItemBase) :
  base (with_base item b) = b.
Proof. destruct item; reflexivity. Qed.

Lemma with_base_base (item : MediaItem) : with_base item (base item) = item.
Proof. destruct item as [b|[b l]|[b l]|[b]]; reflexivity. Qed.

Section SubmitFacts.

Variable cfg : Settings.
Variable wall : nat -> Z.
Variable _parse_results :
  MediaItem -> Dict.t string -> bool -> Outcome (Dict.t Stream).

(** The item as a completed scrape leaves it, the ranking being
    [sorted_streams] and the clock reading [now]. *)
Lemma scraped_item_base (item : MediaItem) (vs : list Stream) (now : Z) :
  base (set_scraped_times
          (set_scraped_at (set_streams item (fold_left append_new vs (streams (base item))))
                          (Some now))
          (scraped_times
             (base (set_scraped_at
                      (set_streams item (fold_left append_new vs (streams (base item))))
                      (Some now))) + 1)) =
  mkBase (log_string (base item)) (state (base item)) (last_state (base item))
         (is_released (base item)) (Some now) (scraped_times (base item) + 1)
         (fold_left append_new vs (streams (base item))).
Proof.
  unfold set_scraped_times, set_scraped_at, set_streams.
  rewrite !base_with_base. reflexivity.
Qed.

Lemma can_we_scrape_spec (item : MediaItem) (w : World) :
  exists n evs,
    snd (can_we_scrape cfg wall item w) = mkWorld n (trace w ++ evs)
    /\ queries evs = [].
Proof.
  unfold can_we_scrape, should_submit.
  destruct (is_released (base item)); simpl.
  - destruct (scraped_at (base item)) as [at_|]; st_unfold.
    + destruct (Qgtb _ _); simpl.
      * exists (S (ticks w)), []. rewrite app_nil_r. split; reflexivity.
      * eexists _, [_]. split; reflexivity.
    + exists (ticks w), []. rewrite app_nil_r. destruct w. split; reflexivity.
  - st_unfold. eexists _, [_]. split; reflexivity.
Qed.

Lemma finish_spec (item : MediaItem) (w : World) :
  exists evs,
    finish item w = ((Returned [item], item), mkWorld (ticks w) (trace w ++ evs))
    /\ queries evs = [].
Proof.
  unfold finish. destruct (streams (base item)); st_unfold.
  - eexists [_]. split; reflexivity.
  - exists []. rewrite app_nil_r. destruct w. split; reflexivity.
Qed.

(** [run] when the gate refuses the item. *)
Lemma run_gated (self : Scraping) (sch : Schedule) (item : MediaItem) (w : World) :
  fst (can_we_scrape cfg wall item w) = false ->
  exists n evs,
    run cfg wall _parse_results self sch item w =
    ((Returned [item], item), mkWorld n (trace w ++ evs))
    /\ queries evs = [].
Proof.
  intros Hgate. unfold run. unfold bind at 1.
  destruct (can_we_scrape_spec item w) as [n [e1 [Hw Hq1]]].
  destruct (can_we_scrape cfg wall item w) as [ok w1]. simpl in Hgate, Hw.
  subst ok w1.
  destruct (finish_spec item (mkWorld n (trace w ++ e1))) as [e2 [-> Hq2]].
  exists n, (e1 ++ e2). simpl. rewrite <- app_assoc, queries_app, Hq1, Hq2.
  split; reflexivity.
Qed.

(** [run] when the gate admits the item: the outcome and the item left
    behind, by the result of the ranker. *)
Lemma run_admitted (self : Scraping) (sch : Schedule) (item : MediaItem) (w : World) :
  fst (can_we_scrape cfg wall item w) = true ->
  fst (run cfg wall _parse_results self sch item w) =
  match _parse_results item (merged_mapping self sch item) true with
  | Raised e => (Raised e, item)
  | Returned sorted_streams =>
      let item3 :=
        set_scraped_times
          (set_scraped_at
             (set_streams item
                (fold_left append_new (Dict.values sorted_streams)
                           (streams (base item))))
             (Some (wall (ticks (snd (can_we_scrape cfg wall item w))))))
          (scraped_times
             (base (set_scraped_at
                      (set_streams item
                         (fold_left append_new (Dict.values sorted_streams)
                                    (streams (base item))))
                      (Some (wall (ticks (snd (can_we_scrape cfg wall item w))))))) + 1)
      in (Returned [item3], item3)
  end.
Proof.
  intros Hgate. unfold run. unfold bind at 1.
  destruct (can_we_scrape cfg wall item w) as [ok w1]. simpl in Hgate. subst ok.
  cbn [snd]. unfold bind at 1.
  destruct (scrape_spec cfg _parse_results self sch item true w1)
    as [parsed [-> _]].
  destruct (_parse_results item (merged_mapping self sch item) true)
    as [sorted_streams|e]; [|reflexivity].
  unfold bind, datetime_now. cbn [ticks trace].
  match goal with
  | |- fst (finish ?it ?w0) = _ =>
      destruct (finish_spec it w0) as [e2 [-> _]]
  end.
  reflexivity.
Qed.

(** C8. When [can_we_scrape] refuses the item, [run] queries no backend
    and leaves the item as it was ([streams], [scraped_at] and
    [scraped_times] included), and still yields it as its single
    result. *)
Theorem run_skips_ineligible_item :
  forall (self : Scraping) (sch : Schedule) (item : MediaItem) (w : World),
    fst (can_we_scrape cfg wall item w) = false ->
    let res := run cfg wall _parse_results self sch item w in
    fst (fst res) = Returned [item]
    /\ snd (fst res) = item
    /\ streams (base (snd (fst res))) = streams (base item)
    /\ scraped_at (base (snd (fst res))) = scraped_at (base item)
    /\ scraped_times (base (snd (fst res))) = scraped_times (base item)
    /\ queries (new_events (run cfg wall _parse_results self sch item) w) = [].
Proof.
  intros self sch item w Hgate res.
  destruct (run_gated self sch item w Hgate) as [n [evs [Hrun Hq]]].
  assert (Hev : new_events (run cfg wall _parse_results self sch item) w = evs).
  { apply new_events_of_trace. rewrite Hrun. reflexivity. }
  subst res. rewrite Hev, Hrun. simpl. repeat split. exact Hq.
Qed.

(** C6. When the ranker fails, [run] raises its error to the caller and
    the item is as before: [scraped_at] and [scraped_times] are not
    advanced, so the gate admits the item again at any later reading of the
    clock. *)
Theorem run_ranker_failure_keeps_item :
  forall (self : Scraping) (sch : Schedule) (item : MediaItem) (w : World)
         (e : Exn),
    fst (can_we_scrape cfg wall item w) = true ->
    _parse_results item (merged_mapping self sch item) true = Raised e ->
    let res := run cfg wall _parse_results self sch item w in
    fst (fst res) = Raised e
    /\ snd (fst res) = item
    /\ scraped_at (base (snd (fst res))) = scraped_at (base item)
    /\ scraped_times (base (snd (fst res))) = scraped_times (base item)
    /\ (forall w', wall (ticks w) <= wall (ticks w') ->
          fst (can_we_scrape cfg wall (snd (fst res)) w') = true).
Proof.
  intros self sch item w e Hgate Hrank res. subst res.
  rewrite (run_admitted self sch item w Hgate), Hrank. simpl.
  repeat split.
  intros w' Hle. rewrite can_we_scrape_value in *.
  apply andb_true_iff in Hgate. destruct Hgate as [Hrel Hsub].
  rewrite Hrel. simpl. exact (should_submit_later cfg wall item w w' Hle Hsub).
Qed.

(** Whatever [run] does, [item.streams] afterwards is the old list with
    some streams merged in by [append_new]. *)
Lemma run_streams_merged (self : Scraping) (sch : Schedule) (item : MediaItem)
      (w : World) :
  exists vs,
    streams (base (snd (fst (run cfg wall _parse_results self sch item w)))) =
    fold_left append_new vs (streams (base item)).
Proof.
  destruct (fst (can_we_scrape cfg wall item w)) eqn:Hgate.
  - rewrite (run_admitted self sch item w Hgate).
    destruct (_parse_results item (merged_mapping self sch item) true)
      as [sorted_streams|e].
    + exists (Dict.values sorted_streams). cbn [fst snd]. cbv zeta.
      rewrite scraped_item_base. reflexivity.
    + exists []. reflexivity.
  - destruct (run_gated self sch item w Hgate) as [n [evs [-> _]]].
    exists []. reflexivity.
Qed.

Lemma run_keeps_streams_distinct (self : Scraping) (sch : Schedule)
      (item : MediaItem) (w : World) :
  NoDup (map infohash (streams (base item))) ->
  NoDup (map infohash
           (streams (base (snd (fst (run cfg wall _parse_results self sch item w)))))).
Proof.
  intros H. destruct (run_streams_merged self sch item w) as [vs ->].
  apply merge_nodup, H.
Qed.

(** C2. [run] appends a ranked stream only when it is not in
    [item.streams] yet, so streams that were distinct by infohash stay so
    through any number of calls.  Two calls of [run] on an item, the second
    scrape giving the same result as the first, leave [item.streams] as one
    call does: same length, same entries. *)
Theorem run_twice_adds_no_duplicates :
  forall (self : Scraping) (sch1 sch2 : Schedule) (item : MediaItem) (w : World),
    let first := run cfg wall _parse_results self sch1 item w in
    let item1 := snd (fst first) in
    let second := run cfg wall _parse_results self sch2 item1 (snd first) in
    let item2 := snd (fst second) in
    (NoDup (map infohash (streams (base item))) ->
       NoDup (map infohash (streams (base item1))) /\
       NoDup (map infohash (streams (base item2))))
    /\ (fst (can_we_scrape cfg wall item w) = true ->
        (forall wa wb,
            fst (scrape cfg _parse_results self sch2 item1 true wb) =
            fst (scrape cfg _parse_results self sch1 item true wa)) ->
        List.length (streams (base item2)) = List.length (streams (base item1))
        /\ streams (base item2) = streams (base item1)).
Proof.
  intros self sch1 sch2 item w first item1 second item2. split.
  - intros Hnodup.
    assert (H1 : NoDup (map infohash (streams (base item1)))).
    { apply run_keeps_streams_distinct, Hnodup. }
    split; [exact H1|]. apply run_keeps_streams_distinct, H1.
  - intros Hgate Hsame.
    assert (Hstreams : streams (base item2) = streams (base item1)).
    { subst item2 second.
      destruct (fst (can_we_scrape cfg wall item1 (snd first))) eqn:Hgate2.
      - rewrite (run_admitted self sch2 item1 (snd first) Hgate2).
        specialize (Hsame w w). rewrite !scrape_value in Hsame.
        rewrite Hsame.
        subst item1 first.
        rewrite (run_admitted self sch1 item w Hgate).
        destruct (_parse_results item (merged_mapping self sch1 item) true)
          as [sorted_streams|e]; [|reflexivity].
        cbn [fst snd]. cbv zeta.
        rewrite !scraped_item_base. cbn [streams].
        apply merge_idempotent.
      - destruct (run_gated self sch2 item1 (snd first) Hgate2)
          as [n [evs [-> _]]]. reflexivity. }
    split; [rewrite Hstreams; reflexivity | exact Hstreams].
Qed.

End SubmitFacts.

(* ------------------------------------------------------------------ *)
(** ** The theorems at the sample inputs *)

Lemma in_order_fair : fair Sample.in_order.
Proof. intros l. apply Permutation_refl. Defined.

Lemma reversed_fair : fair Sample.reversed.
Proof. intros l. apply Permutation_sym, Permutation_rev. Defined.

(** A movie scraped three times, [after_2 = 2]: not eligible 1h59m after
    the last scrape, eligible 2h01m after it. *)
Lemma should_submit_py_backoff_tiers_witness :
  fst (should_submit_py PySample.ints (Sample.frozen (119 * Sample.minute))
         (Sample.movie 3) Sample.w0) = false
  /\ fst (should_submit_py PySample.floats (Sample.frozen (121 * Sample.minute))
            (Sample.movie 3) Sample.w0) = true.
Proof.
  split.
  - apply (should_submit_py_backoff_tiers
             (Sample.frozen (119 * Sample.minute)) PySample.ints
             (Sample.movie 3) Sample.w0)
      with (at_ := 0); [left; reflexivity | reflexivity | reflexivity | reflexivity].
  - apply (should_submit_py_backoff_tiers
             (Sample.frozen (121 * Sample.minute)) PySample.floats
             (Sample.movie 3) Sample.w0)
      with (at_ := 0); [right; reflexivity | reflexivity | reflexivity | reflexivity].
Defined.

(** Where the code leaves the exact comparison.  With an int multiplier of
    six million hours, an elapsed time one microsecond beyond the interval
    is refused, [total_seconds()] rounding to the interval itself.  With a
    float multiplier of 0.512 hours, an elapsed time of 1843.2 seconds,
    0.512 hours, is admitted although it does not exceed the interval, the
    rounded products giving 1843.1999999999998.  With a float multiplier of
    0.7 hours, an elapsed time of 2520 seconds is refused although it
    exceeds 3600 times the multiplier, the products rounding up to 2520. *)
Lemma should_submit_py_not_exact_comparison :
  ((inject_Z (6000000 * 60 * 60) < 21600000000000001 # 1000000)%Q
   /\ fst (should_submit_py PySample.far (Sample.frozen 21600000000000001)
             (Sample.movie 11) Sample.w0) = false)
  /\ (~ ((512 # 1000) * 3600 < 1843200000 # 1000000)%Q
      /\ ~ ((4611686018427388 # 9007199254740992) * 3600
              < 1843200000 # 1000000)%Q
      /\ fst (should_submit_py PySample.fraction (Sample.frozen 1843200000)
                (Sample.movie 3) Sample.w0) = true)
  /\ (((6305039478318694 # 9007199254740992) * 3600
         < 2520000000 # 1000000)%Q
      /\ fst (should_submit_py
                (mkPySettings (PyFloat PySample.f0_7) (PyInt 6) (PyInt 24))
                (Sample.frozen 2520000000) (Sample.movie 3) Sample.w0) = false).
Proof.
  repeat split; try (vm_compute; reflexivity);
    intros H; vm_compute in H; discriminate.
Defined.


Lemma can_we_scrape_released_and_should_submit_witness :
  fst (can_we_scrape Sample.settings (Sample.frozen (1 * Sample.minute))
         (Sample.movie 0) Sample.w0) = false.
Proof.
  apply (can_we_scrape_released_and_should_submit Sample.settings
           (Sample.frozen (1 * Sample.minute)) (Sample.movie 0) Sample.w0).
  reflexivity.
Defined.


Lemma partial_state_leaf_returns_item_witness :
  is_leaf (Sample.movie 3) = true
  /\ last_state (base (Sample.movie 3)) = PartiallyCompleted
  /\ fst (can_we_scrape Sample.settings (Sample.frozen Sample.hour)
            (Sample.movie 3) Sample.w0) = false
  /\ fst (partial_state Sample.settings (Sample.frozen Sample.hour)
            (Sample.movie 3) Sample.w0) = PItem (Sample.movie 3).
Proof.
  split; [reflexivity|]. split; [reflexivity|]. split; [reflexivity|].
  apply (partial_state_leaf_returns_item Sample.settings
           (Sample.frozen Sample.hour) (Sample.movie 3) Sample.w0);
    reflexivity.
Defined.

Lemma scrape_dedups_before_ranking_witness :
  fair Sample.reversed
  /\ Dict.keys (merged_mapping Sample.two_backends Sample.reversed Sample.fresh_movie)
     = ["X"]
  /\ Dict.len (merged_mapping Sample.two_backends Sample.reversed Sample.fresh_movie)
     = 1
  /\ duplicate_notices
       (new_events (scrape Sample.settings Sample.rank_all Sample.two_backends
                           Sample.reversed Sample.fresh_movie true) Sample.w0)
     = [(2, 1)].
Proof.
  split; [exact reversed_fair|].
  apply (scrape_dedups_before_ranking Sample.settings Sample.rank_all
           Sample.two_backends Sample.reversed Sample.fresh_movie true Sample.w0
           reversed_fair)
    with (a := Sample.torrentio) (b := Sample.zilean)
         (v1 := "Title.One") (v2 := "Title.Two");
    reflexivity.
Defined.

Lemma run_skips_ineligible_item_witness :
  fst (can_we_scrape Sample.settings (Sample.frozen (1 * Sample.minute))
         (Sample.movie 0) Sample.w0) = false
  /\ fst (run Sample.settings (Sample.frozen (1 * Sample.minute)) Sample.rank_all
              Sample.two_backends Sample.in_order (Sample.movie 0) Sample.w0)
     = (Returned [Sample.movie 0], Sample.movie 0)
  /\ queries
       (new_events (run Sample.settings (Sample.frozen (1 * Sample.minute))
                        Sample.rank_all Sample.two_backends Sample.in_order
                        (Sample.movie 0)) Sample.w0) = [].
Proof.
  split; [reflexivity|].
  pose proof (run_skips_ineligible_item Sample.settings
                (Sample.frozen (1 * Sample.minute)) Sample.rank_all
                Sample.two_backends Sample.in_order (Sample.movie 0) Sample.w0
                eq_refl) as H.
  cbv zeta in H. destruct H as [Hout [Hitem [_ [_ [_ Hq]]]]].
  split; [|exact Hq].
  rewrite (surjective_pairing (fst (run _ _ _ _ _ _ _))), Hout, Hitem.
  reflexivity.
Defined.

Lemma run_ranker_failure_keeps_item_witness :
  fst (can_we_scrape Sample.settings Sample.hourly Sample.fresh_movie Sample.w0)
  = true
  /\ fst (run Sample.settings Sample.hourly Sample.rank_fails
              Sample.two_backends Sample.in_order Sample.fresh_movie Sample.w0)
     = (Raised "ranking failed", Sample.fresh_movie).
Proof.
  split; [reflexivity|].
  pose proof (run_ranker_failure_keeps_item Sample.settings Sample.hourly
                Sample.rank_fails Sample.two_backends Sample.in_order
                Sample.fresh_movie Sample.w0 "ranking failed"
                eq_refl eq_refl) as H.
  cbv zeta in H. destruct H as [Hout [Hitem _]].
  rewrite (surjective_pairing (fst (run _ _ _ _ _ _ _))), Hout, Hitem.
  reflexivity.
Defined.

(** The second call comes an hour after the first and is admitted: the
    backends are queried again and nothing is appended. *)
Lemma run_twice_adds_no_duplicates_witness :
  let first := run Sample.settings Sample.hourly Sample.rank_all
                   Sample.two_backends Sample.in_order Sample.fresh_movie Sample.w0 in
  let second := run Sample.settings Sample.hourly Sample.rank_all
                    Sample.two_backends Sample.in_order (snd (fst first)) (snd first) in
  fst (can_we_scrape Sample.settings Sample.hourly (snd (fst first)) (snd first))
  = true
  /\ List.length (streams (base (snd (fst first)))) = 1%nat
  /\ List.length (streams (base (snd (fst second)))) = 1%nat.
Proof.
  cbv zeta. split; [reflexivity|]. split; [reflexivity|].
  pose proof (run_twice_adds_no_duplicates Sample.settings Sample.hourly
                Sample.rank_all Sample.two_backends Sample.in_order
                Sample.in_order Sample.fresh_movie Sample.w0) as H.
  cbv zeta in H. destruct H as [_ H].
  destruct H as [Hlen _].
  - reflexivity.
  - intros wa wb. vm_compute. reflexivity.
  - rewrite Hlen. reflexivity.
Defined.

(* ------------------------------------------------------------------ *)
(** ** More on the backoff policy *)

Lemma new_events_nothing {A} (m : St A) (w : World) :
  trace (snd (m w)) = trace w -> new_events m w = [].
Proof.
  intros H. apply new_events_of_trace. rewrite H. symmetry. apply app_nil_r.
Qed.

Section BackoffBounds.

Variable cfg : Settings.
Variable wall : nat -> Z.








Lemma should_submit_world (item : MediaItem) (w : World) :
  snd (should_submit cfg wall item w) =
  mkWorld (match scraped_at (base item) with
           | None => ticks w
           | Some _ => S (ticks w)
           end) (trace w).
Proof.
  unfold should_submit. destruct (scraped_at (base item)); [reflexivity|].
  destruct w; reflexivity.
Qed.

(** What the gate leaves behind: the reason of a refusal as one debug
    line, and the clock read by [should_submit] only. *)
Lemma can_we_scrape_world (item : MediaItem) (w : World) :
  snd (can_we_scrape cfg wall item w) =
  if negb (is_released (base item))
  then mkWorld (ticks w)
         (trace w ++ [LoggerDebug (MsgNotReleased (log_string (base item)))])
  else
    mkWorld (match scraped_at (base item) with
             | None => ticks w
             | Some _ => S (ticks w)
             end)
      (trace w ++
       if fst (should_submit cfg wall item w) then []
       else [LoggerDebug (MsgBackingOff (log_string (base item)))]).
Proof.
  unfold can_we_scrape.
  destruct (is_released (base item)); simpl; [|reflexivity].
  unfold bind.
  pose proof (should_submit_world item w) as Hw.
  destruct (should_submit cfg wall item w) as [ok w1]. simpl in *. subst w1.
  destruct ok; simpl; [|reflexivity].
  unfold ret. simpl. rewrite app_nil_r. reflexivity.
Qed.

(** X4. A refusal of [can_we_scrape] logs exactly one debug line, its reason,
    and an admission logs nothing.  An item that is not released is refused
    as such without the clock being read, whatever its backoff state. *)
Theorem can_we_scrape_logs_one_reason :
  forall (item : MediaItem) (w : World),
    new_events (can_we_scrape cfg wall item) w =
      (if negb (is_released (base item))
       then [LoggerDebug (MsgNotReleased (log_string (base item)))]
       else if fst (should_submit cfg wall item w) then []
            else [LoggerDebug (MsgBackingOff (log_string (base item)))])
    /\ (fst (can_we_scrape cfg wall item w) = true ->
        new_events (can_we_scrape cfg wall item) w = [])
    /\ (fst (can_we_scrape cfg wall item w) = false ->
        List.length (new_events (can_we_scrape cfg wall item) w) = 1%nat)
    /\ (is_released (base item) = false ->
        ticks (snd (can_we_scrape cfg wall item w)) = ticks w).
Proof.
  intros item w.
  assert (H : new_events (can_we_scrape cfg wall item) w =
      (if negb (is_released (base item))
       then [LoggerDebug (MsgNotReleased (log_string (base item)))]
       else if fst (should_submit cfg wall item w) then []
            else [LoggerDebug (MsgBackingOff (log_string (base item)))])).
  { apply new_events_of_trace. rewrite can_we_scrape_world.
    destruct (is_released (base item)); reflexivity. }
  rewrite H, can_we_scrape_value, can_we_scrape_world.
  destruct (is_released (base item)); simpl.
  - destruct (fst (should_submit cfg wall item w)); repeat split;
      intros; discriminate.
  - repeat split. intros; discriminate.
Qed.

End BackoffBounds.

(* ------------------------------------------------------------------ *)
(** ** More on dicts: keys, sizes and lookups of merged mappings *)

Module DictMore.
Import Dict.

Lemma keys_update_in {V} (other d : t V) (k : string) :
  In k (keys (update d other)) <-> In k (keys d) \/ In k (keys other).
Proof.
  unfold update. revert d.
  induction other as [|[k0 v0] other IH]; simpl; intros d.
  - intuition.
  - rewrite IH. unfold keys at 1. fold (keys (set k0 v0 d)).
    rewrite DictFacts.keys_set_in. intuition.
Qed.

Lemma keys_fold_update_in {V} (ds : list (t V)) (d : t V) (k : string) :
  In k (keys (fold_left update ds d)) <->
  In k (keys d) \/ exists o, In o ds /\ In k (keys o).
Proof.
  revert d. induction ds as [|o ds IH]; simpl; intros d.
  - split; [auto | intros [H|[o [[] _]]]; exact H].
  - rewrite IH, keys_update_in. split.
    + intros [[H|H]|[o' [Ho' Hk]]].
      * left; exact H.
      * right. exists o. auto.
      * right. exists o'. auto.
    + intros [H|[o' [[<-|Ho'] Hk]]].
      * left; left; exact H.
      * left; right; exact Hk.
      * right. exists o'. auto.
Qed.

Lemma len_set {V} (k : string) (v : V) (d : t V) :
  len d <= len (set k v d) <= len d + 1.
Proof.
  unfold len. induction d as [|[k0 v0] d IH]; simpl.
  - lia.
  - destruct (String.eqb k k0); simpl List.length; lia.
Qed.

Lemma len_update {V} (other d : t V) :
  len d <= len (update d other) <= len d + len other.
Proof.
  unfold update. revert d.
  induction other as [|[k0 v0] other IH]; simpl; intros d.
  - unfold len. simpl. lia.
  - specialize (IH (set k0 v0 d)). pose proof (len_set k0 v0 d) as Hs.
    unfold len in *. simpl List.length. lia.
Qed.

Lemma len_fold_update {V} (ds : list (t V)) (d : t V) :
  len d <= len (fold_left update ds d)
        <= len d + fold_right Z.add 0 (map len ds).
Proof.
  revert d. induction ds as [|o ds IH]; simpl; intros d.
  - lia.
  - specialize (IH (update d o)). pose proof (len_update o d). lia.
Qed.

Lemma set_not_nil {V} (k : string) (v : V) (d : t V) : set k v d <> [].
Proof.
  destruct d as [|[k0 v0] d]; simpl; [discriminate|].
  destruct (String.eqb k k0); discriminate.
Qed.

Lemma len_positive {V} (d : t V) : d <> [] -> 1 <= len d.
Proof. destruct d; [congruence|]. intros _. unfold len. simpl List.length. lia. Qed.

Lemma len_nonneg {V} (d : t V) : 0 <= len d.
Proof. unfold len. lia. Qed.

Lemma update_positive {V} (other d : t V) :
  other <> [] -> 1 <= len (update d other).
Proof.
  destruct other as [|[k0 v0] other]; [congruence|]. intros _.
  pose proof (len_update other (set k0 v0 d)) as Hu.
  pose proof (len_positive (set k0 v0 d) (set_not_nil k0 v0 d)) as Hs.
  unfold update in *. simpl. lia.
Qed.

(** A merge that was offered anything is not empty. *)
Lemma fold_update_positive {V} (ds : list (t V)) (d : t V) :
  0 < len d + fold_right Z.add 0 (map len ds) ->
  1 <= len (fold_left update ds d).
Proof.
  revert d. induction ds as [|o ds IH]; simpl; intros d H.
  - lia.
  - destruct o as [|kv o].
    + apply IH. unfold update. simpl. unfold len at 2 in H. simpl in H. lia.
    + assert (Hne : kv :: o <> []) by discriminate.
      pose proof (update_positive (kv :: o) d Hne) as Hu.
      pose proof (len_fold_update ds (update d (kv :: o))) as Hf.
      lia.
Qed.

Lemma get_set_same {V} (k : string) (v : V) (d : t V) :
  dict_get k (set k v d) = Some v.
Proof.
  induction d as [|[k0 v0] d IH]; simpl.
  - rewrite String.eqb_refl. reflexivity.
  - destruct (String.eqb_spec k k0) as [->|Hne]; simpl.
    + rewrite String.eqb_refl. reflexivity.
    + destruct (String.eqb_spec k k0); [contradiction | exact IH].
Qed.

Lemma get_set_other {V} (k k' : string) (v : V) (d : t V) :
  k <> k' -> dict_get k (set k' v d) = dict_get k d.
Proof.
  intros Hne. induction d as [|[k0 v0] d IH]; simpl.
  - destruct (String.eqb_spec k k'); [contradiction | reflexivity].
  - destruct (String.eqb_spec k' k0) as [->|Hne']; simpl.
    + destruct (String.eqb_spec k k0); [contradiction | reflexivity].
    + destruct (String.eqb_spec k k0); [reflexivity | exact IH].
Qed.

Lemma get_none_iff {V} (k : string) (d : t V) :
  dict_get k d = None <-> ~ In k (keys d).
Proof.
  induction d as [|[k0 v0] d IH]; simpl.
  - intuition.
  - destruct (String.eqb_spec k k0) as [->|Hne].
    + split; [discriminate | intros H; exfalso; apply H; left; reflexivity].
    + rewrite IH. unfold keys. intuition congruence.
Qed.

(** [d.update(other)]: the keys of [other] take its values, the rest keep
    theirs. *)
Lemma get_update {V} (other d : t V) (k : string) :
  wf other ->
  dict_get k (update d other) =
  match dict_get k other with
  | Some v => Some v
  | None => dict_get k d
  end.
Proof.
  unfold update, wf. revert d.
  induction other as [|[k0 v0] other IH]; simpl; intros d Hwf.
  - reflexivity.
  - inversion Hwf as [|? ? Hnotin Hrest]; subst.
    rewrite (IH _ Hrest).
    destruct (String.eqb_spec k k0) as [->|Hne].
    + assert (Hnone : dict_get k0 other = None) by (apply get_none_iff; exact Hnotin).
      rewrite Hnone. apply get_set_same.
    + destruct (dict_get k other); [reflexivity|].
      apply get_set_other, Hne.
Qed.

Lemma get_update_absent {V} (other d : t V) (k : string) :
  dict_get k other = None -> dict_get k (update d other) = dict_get k d.
Proof.
  unfold update. revert d.
  induction other as [|[k0 v0] other IH]; simpl; intros d H.
  - reflexivity.
  - destruct (String.eqb_spec k k0) as [->|Hne]; [discriminate|].
    rewrite (IH _ H). apply get_set_other, Hne.
Qed.

Lemma get_fold_update_absent {V} (ds : list (t V)) (d : t V) (k : string) :
  (forall o, In o ds -> dict_get k o = None) ->
  dict_get k (fold_left update ds d) = dict_get k d.
Proof.
  revert d. induction ds as [|o ds IH]; simpl; intros d H.
  - reflexivity.
  - rewrite IH by (intros o' Ho'; apply H; right; exact Ho').
    apply get_update_absent, H. left. reflexivity.
Qed.

End DictMore.

(* ------------------------------------------------------------------ *)
(** ** More on the fan-out: who is queried, what is merged, what is logged *)

Lemma parsed_lines_app (l l' : list Event) :
  parsed_lines (l ++ l') = parsed_lines l ++ parsed_lines l'.
Proof. unfold parsed_lines. apply flat_map_app. Qed.

Lemma not_found_notices_app (l l' : list Event) :
  not_found_notices (l ++ l') = not_found_notices l ++ not_found_notices l'.
Proof. unfold not_found_notices. apply flat_map_app. Qed.

Lemma queries_join_events (item : MediaItem) (workers : list Service) :
  queries (join_events item workers) = map service_name workers.
Proof.
  induction workers as [|s workers IH]; simpl; [reflexivity|].
  unfold join_events in *. simpl. rewrite queries_app, IH.
  destruct (service_run s item); reflexivity.
Qed.

Lemma parsed_lines_join_events (item : MediaItem) (workers : list Service) :
  parsed_lines (join_events item workers) = [].
Proof.
  induction workers as [|s workers IH]; simpl; [reflexivity|].
  unfold join_events in *. simpl. rewrite parsed_lines_app, IH.
  destruct (service_run s item); reflexivity.
Qed.

Lemma not_found_join_events (item : MediaItem) (workers : list Service) :
  not_found_notices (join_events item workers) = [].
Proof.
  induction workers as [|s workers IH]; simpl; [reflexivity|].
  unfold join_events in *. simpl. rewrite not_found_notices_app, IH.
  destruct (service_run s item); reflexivity.
Qed.

Lemma parsed_events_views (item : MediaItem) (l : list Stream) :
  queries (map (parsed_event item) l) = []
  /\ duplicate_notices (map (parsed_event item) l) = []
  /\ not_found_notices (map (parsed_event item) l) = []
  /\ parsed_lines (map (parsed_event item) l) = map (fun s => (kind_of item, s)) l.
Proof.
  induction l as [|s l [Hq [Hd [Hn Hp]]]]; simpl; [repeat split|].
  repeat split; try assumption. simpl in Hp. rewrite Hp. reflexivity.
Qed.

(** [log_parsed] writes one line per stream, whatever the kind of item. *)
Lemma log_parsed_exact (item : MediaItem) (s : Stream) (w : World) :
  log_parsed item s w =
  (tt, mkWorld (ticks w) (trace w ++ [parsed_event item s])).
Proof. unfold log_parsed, parsed_event. destruct item; reflexivity. Qed.

Lemma forM_log_parsed_exact (item : MediaItem) (l : list Stream) (w : World) :
  forM_ l (log_parsed item) w =
  (tt, mkWorld (ticks w) (trace w ++ map (parsed_event item) l)).
Proof.
  revert w. induction l as [|s l IH]; intros w; simpl.
  - unfold ret. rewrite app_nil_r. destruct w; reflexivity.
  - unfold bind. rewrite log_parsed_exact, IH. simpl.
    rewrite <- app_assoc. reflexivity.
Qed.

Section FanOutMore.

Variable cfg : Settings.
Variable _parse_results :
  MediaItem -> Dict.t string -> bool -> Outcome (Dict.t Stream).

(** The world [scrape] leaves: the clock untouched, and in the trace the
    fan-out, then the duplicate notice, then the lines of the ranking. *)
Lemma scrape_world (self : Scraping) (sch : Schedule) (item : MediaItem)
      (log : bool) (w : World) :
  snd (scrape cfg _parse_results self sch item log w) =
  mkWorld (ticks w)
    (trace w ++ join_events item (sch (threads self)) ++
     duplicate_events self sch item ++
     ranking_events cfg _parse_results self sch item log).
Proof.
  unfold duplicate_events, ranking_events.
  unfold scrape, merged_mapping, total_results. unfold bind at 1.
  rewrite !join_spec. cbn [fst snd ticks trace app Z.add].
  set (results := fold_left Dict.update (returned_of item (sch (threads self))) []).
  set (total := total_offered item (sch (threads self))).
  set (evs := join_events item (sch (threads self))).
  unfold bind at 1.
  set (notice := LoggerDebug (MsgDuplicates (log_string (base item)) total
                                            (total - Dict.len results))).
  assert (Hw : when (negb (total =? Dict.len results)) (emit notice)
                    (mkWorld (ticks w) (trace w ++ evs)) =
               (tt, mkWorld (ticks w)
                      (trace w ++ evs ++
                       (if total =? Dict.len results then [] else [notice])))).
  { destruct (total =? Dict.len results); unfold when, emit, ret; simpl.
    - rewrite app_nil_r. reflexivity.
    - rewrite <- app_assoc. reflexivity. }
  rewrite Hw. clear Hw.
  destruct (_parse_results item results log) as [sorted|e].
  - unfold bind, ret, when.
    set (top_results := firstn 10 (Dict.values sorted)).
    destruct (log && debug cfg).
    + destruct sorted as [|kv sorted'].
      * simpl. rewrite !app_nil_r. reflexivity.
      * rewrite andb_true_r.
        change (negb (Nat.eqb (List.length (kv :: sorted')) 0)) with true.
        cbv iota. rewrite forM_log_parsed_exact. cbn [snd ticks trace].
        rewrite <- !app_assoc. reflexivity.
    + rewrite andb_false_r. cbn [snd]. rewrite !app_nil_r. reflexivity.
  - unfold ret. cbn [snd]. rewrite !app_nil_r. reflexivity.
Qed.

Lemma scrape_new_events (self : Scraping) (sch : Schedule) (item : MediaItem)
      (log : bool) (w : World) :
  new_events (scrape cfg _parse_results self sch item log) w =
  join_events item (sch (threads self)) ++
  duplicate_events self sch item ++
  ranking_events cfg _parse_results self sch item log.
Proof. apply new_events_of_trace. rewrite scrape_world. reflexivity. Qed.

Lemma duplicate_events_views (self : Scraping) (sch : Schedule) (item : MediaItem) :
  queries (duplicate_events self sch item) = []
  /\ parsed_lines (duplicate_events self sch item) = []
  /\ not_found_notices (duplicate_events self sch item) = [].
Proof.
  unfold duplicate_events. destruct (_ =? _); repeat split.
Qed.

Lemma ranking_events_views (self : Scraping) (sch : Schedule) (item : MediaItem)
      (log : bool) :
  queries (ranking_events cfg _parse_results self sch item log) = []
  /\ duplicate_notices (ranking_events cfg _parse_results self sch item log) = []
  /\ not_found_notices (ranking_events cfg _parse_results self sch item log) = [].
Proof.
  unfold ranking_events.
  destruct (_parse_results item (merged_mapping self sch item) log) as [sorted|e];
    [|repeat split].
  destruct (log && debug cfg); [|repeat split].
  destruct (parsed_events_views item (firstn 10 (Dict.values sorted)))
    as [Hq [Hd [Hn _]]].
  repeat split; assumption.
Qed.

Lemma scrape_queries (self : Scraping) (sch : Schedule) (item : MediaItem)
      (log : bool) (w : World) :
  queries (new_events (scrape cfg _parse_results self sch item log) w) =
  map service_name (sch (threads self)).
Proof.
  rewrite scrape_new_events, !queries_app, queries_join_events.
  destruct (duplicate_events_views self sch item) as [-> _].
  destruct (ranking_events_views self sch item log) as [-> _].
  rewrite !app_nil_r. reflexivity.
Qed.

End FanOutMore.

Lemma validate_false_no_threads (self : Scraping) :
  validate self = false <-> threads self = [].
Proof.
  unfold validate, threads. induction (services self) as [|s l IH]; simpl.
  - split; reflexivity.
  - destruct (initialized s); simpl.
    + split; discriminate.
    + exact IH.
Qed.

Lemma fair_nil (sch : Schedule) : fair sch -> sch [] = [].
Proof.
  intros Hfair. apply Permutation_nil, Permutation_sym, Hfair.
Qed.

(** The keys of the merged mapping are the keys the initialized services
    returned, whatever the order of the merges. *)
Lemma merged_keys_in (self : Scraping) (sch : Schedule) (item : MediaItem)
      (k : string) :
  fair sch ->
  (In k (Dict.keys (merged_mapping self sch item)) <->
   exists s d, In s (services self) /\ initialized s = true /\
               service_run s item = Returned d /\ In k (Dict.keys d)).
Proof.
  intros Hfair. rewrite merged_mapping_fold, DictMore.keys_fold_update_in.
  split.
  - intros [[]|[o [Ho Hk]]].
    unfold returned_of in Ho. apply in_flat_map in Ho.
    destruct Ho as [s [Hs Ho]].
    apply (Permutation_in _ (Hfair _)) in Hs.
    unfold threads in Hs. apply filter_In in Hs. destruct Hs as [Hs Hinit].
    destruct (service_run s item) as [d|e] eqn:E; [|contradiction].
    destruct Ho as [<-|[]]. exists s, d. auto.
  - intros [s [d [Hs [Hinit [Hrun Hk]]]]]. right. exists d. split; [|exact Hk].
    unfold returned_of. apply in_flat_map. exists s. split.
    + apply (Permutation_in _ (Permutation_sym (Hfair _))).
      unfold threads. apply filter_In. auto.
    + rewrite Hrun. left. reflexivity.
Qed.

Lemma merged_len_bounds (self : Scraping) (sch : Schedule) (item : MediaItem) :
  Dict.len (merged_mapping self sch item) <= total_results self sch item
  /\ (0 < total_results self sch item ->
      1 <= Dict.len (merged_mapping self sch item)).
Proof.
  rewrite merged_mapping_fold, total_results_offered. unfold total_offered.
  split.
  - pose proof (DictMore.len_fold_update
                  (returned_of item (sch (threads self))) []) as H.
    unfold Dict.len at 1 2 in H. simpl in H. lia.
  - intros H. apply DictMore.fold_update_positive.
    unfold Dict.len at 1. simpl. exact H.
Qed.

Lemma logger_events_app (l l' : list Event) :
  logger_events (l ++ l') = logger_events l ++ logger_events l'.
Proof. unfold logger_events. apply filter_app. Qed.

(** The fan-out itself calls the logger for nothing, whatever the workers
    return or raise. *)
Lemma logger_events_join_events (item : MediaItem) (workers : list Service) :
  logger_events (join_events item workers) = [].
Proof.
  induction workers as [|s workers IH]; simpl; [reflexivity|].
  unfold join_events in *. simpl. rewrite logger_events_app, IH.
  destruct (service_run s item); reflexivity.
Qed.

Lemma logger_events_parsed (item : MediaItem) (l : list Stream) :
  logger_events (map (parsed_event item) l) = map (parsed_event item) l.
Proof.
  induction l as [|s l IH]; simpl; [reflexivity|]. rewrite IH. reflexivity.
Qed.

Section FanOutProperties.

Variable cfg : Settings.
Variable _parse_results :
  MediaItem -> Dict.t string -> bool -> Outcome (Dict.t Stream).

(** X5. [validate] is false exactly when no service is initialized, and then
    [scrape] starts no worker: no backend is queried, the ranker is given
    the empty mapping and no duplicate is reported. *)
Theorem scrape_without_initialized_service :
  forall (self : Scraping) (sch : Schedule) (item : MediaItem)
         (log : bool) (w : World),
    fair sch ->
    validate self = false ->
    threads self = []
    /\ merged_mapping self sch item = []
    /\ fst (scrape cfg _parse_results self sch item log w) =
       _parse_results item [] log
    /\ queries (new_events (scrape cfg _parse_results self sch item log) w) = []
    /\ duplicate_notices
         (new_events (scrape cfg _parse_results self sch item log) w) = [].
Proof.
  intros self sch item log w Hfair Hval.
  apply validate_false_no_threads in Hval.
  assert (Hm : merged_mapping self sch item = []).
  { rewrite merged_mapping_fold, Hval, (fair_nil sch Hfair). reflexivity. }
  split; [exact Hval|]. split; [exact Hm|]. split; [|split].
  - rewrite scrape_value, Hm. reflexivity.
  - rewrite scrape_queries, Hval, (fair_nil sch Hfair). reflexivity.
  - rewrite scrape_duplicate_notices, Hm, total_results_offered, Hval,
      (fair_nil sch Hfair). reflexivity.
Qed.

(** X6. [scrape] queries every initialized service exactly once and no
    service that is not initialized, whether or not the ranking succeeds. *)
Theorem scrape_queries_initialized_services :
  forall (self : Scraping) (sch : Schedule) (item : MediaItem)
         (log : bool) (w : World),
    fair sch ->
    Permutation
      (queries (new_events (scrape cfg _parse_results self sch item log) w))
      (map service_name (filter initialized (services self)))
    /\ List.length
         (queries (new_events (scrape cfg _parse_results self sch item log) w)) =
       List.length (filter initialized (services self)).
Proof.
  intros self sch item log w Hfair. rewrite scrape_queries.
  split.
  - apply Permutation_map, Hfair.
  - rewrite length_map. apply Permutation_length, Hfair.
Qed.

(** X7. A key is in the mapping given to the ranker exactly when some
    initialized service returned it: no key offered is lost, none is
    made up, and a service that raised or is not initialized adds none. *)
Theorem merged_keys_are_offered_keys :
  forall (self : Scraping) (sch : Schedule) (item : MediaItem) (k : string),
    fair sch ->
    (In k (Dict.keys (merged_mapping self sch item)) <->
     exists s d, In s (services self) /\ initialized s = true /\
                 service_run s item = Returned d /\ In k (Dict.keys d)).
Proof. intros self sch item k Hfair. apply merged_keys_in, Hfair. Qed.

(** X8. Last writer wins: the value the merged mapping holds for a key is the
    one offered by the last worker, in the order of the lock, whose
    mapping has the key. *)
Theorem merged_value_from_last_writer :
  forall (self : Scraping) (sch : Schedule) (item : MediaItem)
         (before after : list Service) (s : Service)
         (d : Dict.t string) (k v : string),
    sch (threads self) = before ++ s :: after ->
    service_run s item = Returned d ->
    Dict.wf d ->
    dict_get k d = Some v ->
    (forall s' d', In s' after -> service_run s' item = Returned d' ->
                   dict_get k d' = None) ->
    dict_get k (merged_mapping self sch item) = Some v.
Proof.
  intros self sch item before after s d k v Hsch Hrun Hwf Hget Hafter.
  rewrite merged_mapping_fold, Hsch. unfold returned_of.
  rewrite flat_map_app. simpl. rewrite Hrun. simpl.
  rewrite fold_left_app. simpl.
  rewrite DictMore.get_fold_update_absent.
  - rewrite (DictMore.get_update d _ k Hwf), Hget. reflexivity.
  - intros o Ho. apply in_flat_map in Ho. destruct Ho as [s' [Hs' Ho]].
    destruct (service_run s' item) as [d'|e] eqn:E; [|contradiction].
    destruct Ho as [<-|[]]. apply (Hafter s' d' Hs' E).
Qed.

(** X9. The race between the workers decides which value a shared key keeps,
    but not the keys of the merged mapping, its size, the count of offered
    pairs or the duplicate notice. *)
Theorem merge_counts_independent_of_schedule :
  forall (self : Scraping) (sch1 sch2 : Schedule) (item : MediaItem)
         (log : bool) (w1 w2 : World),
    fair sch1 -> fair sch2 ->
    Permutation (Dict.keys (merged_mapping self sch1 item))
                (Dict.keys (merged_mapping self sch2 item))
    /\ Dict.len (merged_mapping self sch1 item) =
       Dict.len (merged_mapping self sch2 item)
    /\ total_results self sch1 item = total_results self sch2 item
    /\ duplicate_notices
         (new_events (scrape cfg _parse_results self sch1 item log) w1) =
       duplicate_notices
         (new_events (scrape cfg _parse_results self sch2 item log) w2).
Proof.
  intros self sch1 sch2 item log w1 w2 H1 H2.
  assert (Hperm : Permutation (Dict.keys (merged_mapping self sch1 item))
                              (Dict.keys (merged_mapping self sch2 item))).
  { apply NoDup_Permutation.
    - rewrite merged_mapping_fold.
      apply DictFacts.fold_update_wf, DictFacts.wf_nil.
    - rewrite merged_mapping_fold.
      apply DictFacts.fold_update_wf, DictFacts.wf_nil.
    - intros k. rewrite (merged_keys_in self sch1 item k H1),
        (merged_keys_in self sch2 item k H2). reflexivity. }
  assert (Hlen : Dict.len (merged_mapping self sch1 item) =
                 Dict.len (merged_mapping self sch2 item)).
  { apply Permutation_length in Hperm. unfold Dict.keys in Hperm.
    rewrite !length_map in Hperm. unfold Dict.len. congruence. }
  assert (Htot : total_results self sch1 item = total_results self sch2 item).
  { rewrite !total_results_offered.
    rewrite (total_offered_permutation item _ _ (H1 _)).
    symmetry. apply total_offered_permutation, H2. }
  split; [exact Hperm|]. split; [exact Hlen|]. split; [exact Htot|].
  rewrite !scrape_duplicate_notices, Hlen, Htot. reflexivity.
Qed.

(** X10. The merged mapping is never larger than the count of offered pairs
    and is not empty when anything was offered, so a duplicate notice
    always reports a positive number of removed entries, smaller than the
    total. *)
Theorem duplicates_reported_are_positive :
  forall (self : Scraping) (sch : Schedule) (item : MediaItem)
         (log : bool) (w : World),
    Dict.len (merged_mapping self sch item) <= total_results self sch item
    /\ (0 < total_results self sch item ->
        1 <= Dict.len (merged_mapping self sch item))
    /\ (forall total removed,
          In (total, removed)
             (duplicate_notices
                (new_events (scrape cfg _parse_results self sch item log) w)) ->
          total = total_results self sch item /\ 0 < removed < total).
Proof.
  intros self sch item log w.
  destruct (merged_len_bounds self sch item) as [Hle Hpos].
  split; [exact Hle|]. split; [exact Hpos|].
  intros total removed Hin. rewrite scrape_duplicate_notices in Hin.
  destruct (total_results self sch item =? Dict.len (merged_mapping self sch item))
    eqn:E; [contradiction|].
  destruct Hin as [Heq|[]]. injection Heq as <- <-.
  apply Z.eqb_neq in E. split; [reflexivity|].
  pose proof (DictMore.len_nonneg (merged_mapping self sch item)). lia.
Qed.

(** X11. The ranking is logged one line per stream, for the ten best streams
    at most, labelled by the kind of the item, and only when both [log] and
    the debug setting are on; a failed ranking logs no line. *)
Theorem scrape_logs_ten_best_streams :
  forall (self : Scraping) (sch : Schedule) (item : MediaItem)
         (log : bool) (w : World),
    parsed_lines (new_events (scrape cfg _parse_results self sch item log) w) =
      match _parse_results item (merged_mapping self sch item) log with
      | Returned sorted_streams =>
          if log && debug cfg
          then map (fun s => (kind_of item, s))
                   (firstn 10 (Dict.values sorted_streams))
          else []
      | Raised _ => []
      end
    /\ (List.length
          (parsed_lines
             (new_events (scrape cfg _parse_results self sch item log) w))
        <= 10)%nat.
Proof.
  intros self sch item log w.
  assert (H : parsed_lines
                (new_events (scrape cfg _parse_results self sch item log) w) =
      match _parse_results item (merged_mapping self sch item) log with
      | Returned sorted_streams =>
          if log && debug cfg
          then map (fun s => (kind_of item, s))
                   (firstn 10 (Dict.values sorted_streams))
          else []
      | Raised _ => []
      end).
  { rewrite scrape_new_events, !parsed_lines_app, parsed_lines_join_events.
    destruct (duplicate_events_views self sch item) as [_ [-> _]].
    unfold ranking_events. simpl.
    destruct (_parse_results item (merged_mapping self sch item) log)
      as [sorted|e]; [|reflexivity].
    destruct (log && debug cfg); [|reflexivity].
    apply parsed_events_views. }
  split; [exact H|]. rewrite H.
  destruct (_parse_results item (merged_mapping self sch item) log)
    as [sorted|e]; [|simpl; lia].
  destruct (log && debug cfg); [|simpl; lia].
  rewrite length_map. apply firstn_le_length.
Qed.

Lemma scrape_logger_events (self : Scraping) (sch : Schedule) (item : MediaItem)
      (log : bool) (w : World) :
  logger_events (new_events (scrape cfg _parse_results self sch item log) w) =
  duplicate_events self sch item ++
  ranking_events cfg _parse_results self sch item log.
Proof.
  rewrite scrape_new_events, !logger_events_app, logger_events_join_events.
  simpl. f_equal.
  - unfold duplicate_events. destruct (_ =? _); reflexivity.
  - unfold ranking_events.
    destruct (_parse_results item (merged_mapping self sch item) log)
      as [sorted|e]; [|reflexivity].
    destruct (log && debug cfg); [|reflexivity].
    apply logger_events_parsed.
Qed.

(** C7. With three active backends one of which raises, [scrape] still
    ranks the merge of what the other two returned (in the order they took
    the lock) and the backend's exception never reaches the caller:
    [scrape] only raises what the ranker raises.  The failure is dropped in
    silence: the logger is not called for it, and what [scrape] logs is the
    duplicate notice and the ranking lines of the other two mappings. *)
Theorem scrape_drops_failing_backend_silently :
  forall (self : Scraping) (sch : Schedule) (item : MediaItem)
         (log : bool) (w : World) (f a b : Service) (e : Exn)
         (da db : Dict.t string),
    fair sch ->
    Permutation (threads self) [f; a; b] ->
    service_run f item = Raised e ->
    service_run a item = Returned da ->
    service_run b item = Returned db ->
    let merged := merged_mapping self sch item in
    let offered := Dict.len da + Dict.len db in
    (merged = Dict.update (Dict.update [] da) db \/
     merged = Dict.update (Dict.update [] db) da)
    /\ fst (scrape cfg _parse_results self sch item log w) =
       _parse_results item merged log
    /\ (forall e',
          fst (scrape cfg _parse_results self sch item log w) = Raised e' ->
          _parse_results item merged log = Raised e')
    /\ (forall sorted_streams,
          _parse_results item merged log = Returned sorted_streams ->
          fst (scrape cfg _parse_results self sch item log w) =
            Returned sorted_streams)
    /\ logger_events
         (new_events (scrape cfg _parse_results self sch item log) w) =
       (if offered =? Dict.len merged then []
        else [LoggerDebug (MsgDuplicates (log_string (base item)) offered
                                         (offered - Dict.len merged))])
       ++ ranking_events cfg _parse_results self sch item log
    /\ (forall ev,
          In ev (logger_events
                   (new_events (scrape cfg _parse_results self sch item log) w)) ->
          (exists who total removed,
              ev = LoggerDebug (MsgDuplicates who total removed)) \/
          (exists s, ev = parsed_event item s)).
Proof.
  intros self sch item log w f a b e da db Hfair Hperm Hf Ha Hb merged offered.
  assert (Hp : Permutation (sch (threads self)) [f; a; b]).
  { eapply Permutation_trans; [apply Hfair | exact Hperm]. }
  assert (Htotal : total_results self sch item = offered).
  { rewrite total_results_offered, (total_offered_permutation item _ _ Hp).
    unfold total_offered, returned_of. simpl. rewrite Hf, Ha, Hb. simpl.
    subst offered. lia. }
  assert (Hlog : logger_events
         (new_events (scrape cfg _parse_results self sch item log) w) =
       (if offered =? Dict.len merged then []
        else [LoggerDebug (MsgDuplicates (log_string (base item)) offered
                                         (offered - Dict.len merged))])
       ++ ranking_events cfg _parse_results self sch item log).
  { rewrite scrape_logger_events. unfold duplicate_events.
    rewrite Htotal. reflexivity. }
  split; [|split; [|split; [|split; [|split]]]].
  - subst merged. rewrite merged_mapping_fold.
    pose proof (returned_of_permutation item _ _ Hp) as Hr.
    unfold returned_of at 2 in Hr. simpl in Hr. rewrite Hf, Ha, Hb in Hr.
    simpl in Hr.
    apply Permutation_sym, Permutation_length_2_inv in Hr.
    destruct Hr as [-> | ->]; simpl; auto.
  - apply scrape_value.
  - intros e' H. rewrite scrape_value in H. exact H.
  - intros sorted_streams H. rewrite scrape_value. exact H.
  - exact Hlog.
  - intros ev Hev. rewrite Hlog in Hev. apply in_app_or in Hev.
    destruct Hev as [Hev|Hev].
    + left. destruct (offered =? Dict.len merged); [contradiction|].
      destruct Hev as [<-|[]]. eauto.
    + right. unfold ranking_events in Hev. fold merged in Hev.
      destruct (_parse_results item merged log) as [sorted|e0]; [|contradiction].
      destruct (log && debug cfg); [|contradiction].
      apply in_map_iff in Hev. destruct Hev as [s0 [<- _]]. exists s0. reflexivity.
Qed.

End FanOutProperties.

(* ------------------------------------------------------------------ *)
(** ** More on submission: what [run] changes and what it leaves alone *)

(** The merge of [run] only appends: the old streams stay in place, and
    what follows them are ranked streams that were not there. *)
Lemma merge_appends (vs l : list Stream) :
  exists added,
    fold_left append_new vs l = l ++ added
    /\ (forall a, In a added -> In a vs /\ stream_in a l = false).
Proof.
  revert l. induction vs as [|x vs IH]; simpl; intros l.
  - exists []. split; [symmetry; apply app_nil_r | intros a []].
  - unfold append_new at 2. destruct (stream_in x l) eqn:E; simpl.
    + destruct (IH l) as [added [Heq Hadded]]. exists added.
      split; [exact Heq|]. intros a Ha. destruct (Hadded a Ha). auto.
    + destruct (IH (l ++ [x])) as [added [Heq Hadded]].
      exists (x :: added). split.
      * rewrite Heq, <- app_assoc. reflexivity.
      * intros a [<-|Ha]; [auto|].
        destruct (Hadded a Ha) as [Hin Hnot].
        rewrite stream_in_app in Hnot. apply orb_false_iff in Hnot.
        split; [right; exact Hin | apply Hnot].
Qed.

Lemma children_with_base (item : MediaItem) (b : ItemBase) :
  children (with_base item b) = children item
  /\ kind_of (with_base item b) = kind_of item.
Proof. destruct item; split; reflexivity. Qed.

Lemma finish_exact (item : MediaItem) (w : World) :
  finish item w =
  ((Returned [item], item),
   mkWorld (ticks w) (trace w ++ not_found_event item)).
Proof.
  unfold finish, not_found_event. destruct (streams (base item)); st_unfold.
  - reflexivity.
  - rewrite app_nil_r. destruct w; reflexivity.
Qed.

Section SubmitMore.

Variable cfg : Settings.
Variable wall : nat -> Z.
Variable _parse_results :
  MediaItem -> Dict.t string -> bool -> Outcome (Dict.t Stream).

(** The world an admitted [run] leaves. *)
Lemma run_admitted_world (self : Scraping) (sch : Schedule) (item : MediaItem)
      (w : World) :
  fst (can_we_scrape cfg wall item w) = true ->
  snd (run cfg wall _parse_results self sch item w) =
  let n := ticks (snd (can_we_scrape cfg wall item w)) in
  let evs := join_events item (sch (threads self)) ++
             duplicate_events self sch item ++
             ranking_events cfg _parse_results self sch item true in
  match _parse_results item (merged_mapping self sch item) true with
  | Raised _ => mkWorld n (trace w ++ evs)
  | Returned _ =>
      mkWorld (S n)
        (trace w ++ evs ++
         not_found_event (snd (fst (run cfg wall _parse_results self sch item w))))
  end.
Proof.
  intros Hgate. rewrite (run_admitted cfg wall _parse_results self sch item w Hgate).
  unfold run. unfold bind at 1.
  pose proof (can_we_scrape_world cfg wall item w) as Hw.
  rewrite can_we_scrape_value in Hgate.
  apply andb_true_iff in Hgate. destruct Hgate as [Hrel Hsub].
  rewrite Hrel, Hsub in Hw. simpl in Hw. rewrite app_nil_r in Hw.
  destruct (can_we_scrape cfg wall item w) as [ok w1] eqn:Egate.
  assert (Hok : ok = true).
  { pose proof (can_we_scrape_value cfg wall item w) as Hv.
    rewrite Egate, Hrel, Hsub in Hv. exact Hv. }
  subst ok. cbn [snd] in *. subst w1. cbn [ticks].
  unfold bind at 1.
  pose proof (scrape_world cfg _parse_results self sch item true
                (mkWorld (match scraped_at (base item) with
                          | Some _ => S (ticks w)
                          | None => ticks w
                          end) (trace w))) as Hs.
  pose proof (scrape_value cfg _parse_results self sch item true
                (mkWorld (match scraped_at (base item) with
                          | Some _ => S (ticks w)
                          | None => ticks w
                          end) (trace w))) as Hv.
  destruct (scrape cfg _parse_results self sch item true _) as [r w2].
  cbn [fst snd ticks trace] in Hs, Hv. subst r w2.
  destruct (_parse_results item (merged_mapping self sch item) true)
    as [sorted_streams|e]; [|reflexivity].
  unfold bind, datetime_now. cbn [ticks trace fst snd]. cbv zeta.
  rewrite finish_exact. cbn [snd ticks trace].
  rewrite <- !app_assoc. reflexivity.
Qed.

Lemma run_gated_world (self : Scraping) (sch : Schedule) (item : MediaItem)
      (w : World) :
  fst (can_we_scrape cfg wall item w) = false ->
  run cfg wall _parse_results self sch item w =
  ((Returned [item], item),
   mkWorld (ticks (snd (can_we_scrape cfg wall item w)))
     (trace (snd (can_we_scrape cfg wall item w)) ++ not_found_event item)).
Proof.
  intros Hgate. unfold run. unfold bind at 1.
  destruct (can_we_scrape cfg wall item w) as [ok w1]. simpl in Hgate. subst ok.
  rewrite finish_exact. reflexivity.
Qed.

End SubmitMore.

Section SubmitProperties.

Variable cfg : Settings.
Variable wall : nat -> Z.
Variable _parse_results :
  MediaItem -> Dict.t string -> bool -> Outcome (Dict.t Stream).

(** X12. A completed scrape: [run] yields the item it updated, [scraped_times]
    is one more, [scraped_at] is the reading of the clock made after the
    scrape (the one that follows the gate's), the old streams keep their
    place and are followed by the ranked streams that were not there, so
    that every ranked stream is now in [item.streams]. *)
Theorem run_records_completed_scrape :
  forall (self : Scraping) (sch : Schedule) (item : MediaItem) (w : World)
         (sorted_streams : Dict.t Stream),
    fst (can_we_scrape cfg wall item w) = true ->
    _parse_results item (merged_mapping self sch item) true =
      Returned sorted_streams ->
    let res := run cfg wall _parse_results self sch item w in
    let item' := snd (fst res) in
    fst (fst res) = Returned [item']
    /\ scraped_times (base item') = scraped_times (base item) + 1
    /\ scraped_at (base item') =
       Some (wall (ticks (snd (can_we_scrape cfg wall item w))))
    /\ ticks (snd res) = S (ticks (snd (can_we_scrape cfg wall item w)))
    /\ (exists added,
          streams (base item') = streams (base item) ++ added
          /\ forall a, In a added ->
               In a (Dict.values sorted_streams) /\
               stream_in a (streams (base item)) = false)
    /\ (forall s, In s (Dict.values sorted_streams) ->
          stream_in s (streams (base item')) = true).
Proof.
  intros self sch item w sorted_streams Hgate Hrank res item'.
  subst item' res.
  rewrite (run_admitted_world cfg wall _parse_results self sch item w Hgate).
  rewrite (run_admitted cfg wall _parse_results self sch item w Hgate), Hrank.
  cbn [fst snd ticks]. cbv zeta. rewrite scraped_item_base. cbn.
  repeat split.
  - destruct (merge_appends (Dict.values sorted_streams) (streams (base item)))
      as [added [Heq Hadded]].
    exists added. split; [exact Heq | exact Hadded].
  - intros s Hs. apply merge_covers, Hs.
Qed.

(** X13. Every call of [run], whatever its path, leaves the identity of the
    item alone (its kind, its children, [log_string], [state],
    [last_state], [is_released]), keeps the streams it had in their place,
    never lowers [scraped_times], and when it completes yields exactly the
    item it worked on. *)
Theorem run_only_touches_scrape_attributes :
  forall (self : Scraping) (sch : Schedule) (item : MediaItem) (w : World),
    let res := run cfg wall _parse_results self sch item w in
    let item' := snd (fst res) in
    kind_of item' = kind_of item
    /\ children item' = children item
    /\ log_string (base item') = log_string (base item)
    /\ state (base item') = state (base item)
    /\ last_state (base item') = last_state (base item)
    /\ is_released (base item') = is_released (base item)
    /\ (exists added, streams (base item') = streams (base item) ++ added)
    /\ (scraped_times (base item') = scraped_times (base item) \/
        scraped_times (base item') = scraped_times (base item) + 1)
    /\ (forall l, fst (fst res) = Returned l -> l = [item']).
Proof.
  intros self sch item w res item'. subst item' res.
  destruct (fst (can_we_scrape cfg wall item w)) eqn:Hgate.
  - rewrite (run_admitted cfg wall _parse_results self sch item w Hgate).
    destruct (_parse_results item (merged_mapping self sch item) true)
      as [sorted_streams|e].
    + cbn [fst snd]. cbv zeta. rewrite scraped_item_base. cbn.
      unfold set_scraped_times, set_scraped_at, set_streams.
      repeat match goal with
             | |- context [kind_of (with_base ?i ?b)] =>
                 rewrite (proj2 (children_with_base i b))
             | |- context [children (with_base ?i ?b)] =>
                 rewrite (proj1 (children_with_base i b))
             end.
      repeat split.
      * destruct (merge_appends (Dict.values sorted_streams)
                    (streams (base item))) as [added [Heq _]].
        exists added. exact Heq.
      * right. reflexivity.
      * intros l Hl. injection Hl as <-. reflexivity.
    + cbn [fst snd]. repeat split.
      * exists []. symmetry. apply app_nil_r.
      * left. reflexivity.
      * intros l Hl. discriminate.
  - rewrite (run_gated_world cfg wall _parse_results self sch item w Hgate).
    cbn [fst snd]. repeat split.
    + exists []. symmetry. apply app_nil_r.
    + left. reflexivity.
    + intros l Hl. injection Hl as <-. reflexivity.
Qed.

(** X14. The NOT_FOUND notice is written exactly when [run] completes with an
    item that has no stream, be it after a scrape or after a refusal of
    the gate; a run that the ranker aborts writes none. *)
Theorem run_not_found_notice :
  forall (self : Scraping) (sch : Schedule) (item : MediaItem) (w : World),
    let res := run cfg wall _parse_results self sch item w in
    not_found_notices (new_events (run cfg wall _parse_results self sch item) w) =
    match fst (fst res) with
    | Raised _ => []
    | Returned _ =>
        match streams (base (snd (fst res))) with
        | [] => [("NOT_FOUND", log_string (base item))]
        | _ :: _ => []
        end
    end.
Proof.
  intros self sch item w res. subst res.
  destruct (fst (can_we_scrape cfg wall item w)) eqn:Hgate.
  - pose proof (run_admitted_world cfg wall _parse_results self sch item w Hgate)
      as Hw.
    rewrite (run_admitted cfg wall _parse_results self sch item w Hgate) in *.
    cbv zeta in Hw.
    destruct (duplicate_events_views self sch item) as [_ [_ Hd]].
    destruct (ranking_events_views cfg _parse_results self sch item true)
      as [_ [_ Hr]].
    destruct (_parse_results item (merged_mapping self sch item) true)
      as [sorted_streams|e].
    + erewrite new_events_of_trace by (rewrite Hw; reflexivity).
      rewrite !not_found_notices_app, not_found_join_events, Hd, Hr.
      cbn [fst snd app]. unfold not_found_event.
      rewrite scraped_item_base. cbn [streams log_string].
      destruct (fold_left append_new _ _); reflexivity.
    + erewrite new_events_of_trace by (rewrite Hw; reflexivity).
      rewrite !not_found_notices_app, not_found_join_events, Hd, Hr.
      reflexivity.
  - assert (Hev :
      new_events (run cfg wall _parse_results self sch item) w =
      (if negb (is_released (base item))
       then [LoggerDebug (MsgNotReleased (log_string (base item)))]
       else if fst (should_submit cfg wall item w) then []
            else [LoggerDebug (MsgBackingOff (log_string (base item)))])
      ++ not_found_event item).
    { apply new_events_of_trace.
      rewrite (run_gated_world cfg wall _parse_results self sch item w Hgate).
      cbn [snd trace]. rewrite can_we_scrape_world.
      destruct (negb (is_released (base item))); cbn [trace];
        rewrite <- app_assoc; reflexivity. }
    rewrite Hev, not_found_notices_app.
    rewrite (run_gated_world cfg wall _parse_results self sch item w Hgate).
    cbn [fst snd]. unfold not_found_event.
    destruct (negb (is_released (base item)));
      [|destruct (fst (should_submit cfg wall item w))];
      destruct (streams (base item)); reflexivity.
Qed.

(** X15. An admitted [run] queries every initialized service exactly once,
    also when the ranking then fails. *)
Theorem run_admitted_queries_initialized_services :
  forall (self : Scraping) (sch : Schedule) (item : MediaItem) (w : World),
    fair sch ->
    fst (can_we_scrape cfg wall item w) = true ->
    Permutation
      (queries (new_events (run cfg wall _parse_results self sch item) w))
      (map service_name (filter initialized (services self))).
Proof.
  intros self sch item w Hfair Hgate.
  pose proof (run_admitted_world cfg wall _parse_results self sch item w Hgate)
    as Hw.
  cbv zeta in Hw.
  destruct (duplicate_events_views self sch item) as [Hd _].
  destruct (ranking_events_views cfg _parse_results self sch item true)
    as [Hr _].
  assert (Hq : queries (new_events (run cfg wall _parse_results self sch item) w)
               = map service_name (sch (threads self))).
  { destruct (_parse_results item (merged_mapping self sch item) true);
      (erewrite new_events_of_trace by (rewrite Hw; reflexivity));
      rewrite !queries_app, queries_join_events, Hd, Hr;
      [|rewrite !app_nil_r; reflexivity].
    unfold not_found_event.
    destruct (streams _); simpl; rewrite !app_nil_r; reflexivity. }
  rewrite Hq. apply Permutation_map, Hfair.
Qed.


End SubmitProperties.

(* ------------------------------------------------------------------ *)
(** ** More on the hierarchy walker *)


Lemma forallb_false_exists {A} (p : A -> bool) (l : list A) :
  forallb p l = false -> exists a, In a l /\ p a = false.
Proof.
  induction l as [|a l IH]; simpl; [discriminate|].
  destruct (p a) eqn:E; simpl.
  - intros H. destruct (IH H) as [a' [Hin Hp]]. exists a'. auto.
  - intros _. exists a. auto.
Qed.

Lemma not_completed_spec (b : ItemBase) :
  not_completed b = true <-> state b <> Completed.
Proof.
  unfold not_completed. rewrite negb_true_iff. split.
  - intros H Heq. apply States_eqb_eq in Heq. congruence.
  - intros H. destruct (States_eqb (state b) Completed) eqn:E; [|reflexivity].
    apply States_eqb_eq in E. contradiction.
Qed.

Section WalkerMore.

Variable cfg : Settings.
Variable wall : nat -> Z.

Lemma incomplete_child_pending (c : MediaItem) (w : World) :
  fst (incomplete_child cfg wall c w) = pending_at cfg (wall (ticks w)) c.
Proof.
  rewrite incomplete_child_value, should_submit_value. reflexivity.
Qed.

Lemma incomplete_child_world (c : MediaItem) (w : World) :
  trace (snd (incomplete_child cfg wall c w)) = trace w
  /\ (ticks w <= ticks (snd (incomplete_child cfg wall c w)) <= S (ticks w))%nat.
Proof.
  unfold incomplete_child.
  destruct (not_completed (base c) && is_released (base c)).
  - rewrite should_submit_world. simpl.
    destruct (scraped_at (base c)); split; try reflexivity; lia.
  - simpl. split; [reflexivity | lia].
Qed.

Lemma pending_at_attributes (now : Z) (c : MediaItem) :
  pending_at cfg now c = true ->
  state (base c) <> Completed /\ is_released (base c) = true.
Proof.
  unfold pending_at. intros H.
  apply andb_true_iff in H. destruct H as [H _].
  apply andb_true_iff in H. destruct H as [Hn Hr].
  split; [apply not_completed_spec, Hn | exact Hr].
Qed.

(** The comprehension over children, for any kind of child: it logs
    nothing, reads the clock at most once per child, keeps only children
    pending at the reading made for them, and is a plain filter while the
    clock stands still. *)
Lemma comprehension_spec {A} (inj : A -> MediaItem) (l : list A) (w : World) :
  trace (snd (filterM (fun c => incomplete_child cfg wall (inj c)) l w)) = trace w
  /\ (ticks w
      <= ticks (snd (filterM (fun c => incomplete_child cfg wall (inj c)) l w))
      <= ticks w + List.length l)%nat
  /\ (forall c,
        In c (fst (filterM (fun c => incomplete_child cfg wall (inj c)) l w)) ->
        In c l /\ exists n, (ticks w <= n)%nat /\
                            pending_at cfg (wall n) (inj c) = true)
  /\ (forall now, (forall n, wall n = now) ->
        fst (filterM (fun c => incomplete_child cfg wall (inj c)) l w) =
        filter (fun c => pending_at cfg now (inj c)) l).
Proof.
  revert w. induction l as [|x l IH]; intros w; simpl.
  - unfold ret. simpl. repeat split; lia.
  - unfold bind, ret.
    pose proof (incomplete_child_pending (inj x) w) as Hx.
    destruct (incomplete_child_world (inj x) w) as [Htr Htk].
    destruct (incomplete_child cfg wall (inj x) w) as [b w1].
    cbn [fst snd] in Hx, Htr, Htk.
    destruct (IH w1) as [Htr' [Htk' [Hin' Hfz']]].
    destruct (filterM _ l w1) as [r w2]. cbn [fst snd] in *.
    split; [congruence|]. split; [lia|]. split.
    + assert (Hrest : forall c, In c r ->
                (x = c \/ In c l) /\
                exists n, (ticks w <= n)%nat /\
                          pending_at cfg (wall n) (inj c) = true).
      { intros c Hc. destruct (Hin' c Hc) as [Hl [n [Hn Hp]]].
        split; [right; exact Hl|]. exists n. split; [lia | exact Hp]. }
      intros c Hc. destruct b; [|exact (Hrest c Hc)].
      destruct Hc as [<-|Hc]; [|exact (Hrest c Hc)].
      split; [left; reflexivity|].
      exists (ticks w). split; [lia | symmetry; exact Hx].
    + intros now Hfrozen. rewrite (Hfz' now Hfrozen).
      rewrite Hfrozen in Hx. rewrite <- Hx. reflexivity.
Qed.


(** X18. For a partially completed Show that the gate refuses, the frontier of
    [partial_state] is the coarsening of what [yield_incomplete_children]
    gives for the Show at that point: each pending season, or its released
    and not completed episodes. *)
Theorem partial_state_coarsens_incomplete_children :
  forall (sh : Show) (w : World),
    last_state (show_base sh) = PartiallyCompleted ->
    fst (can_we_scrape cfg wall (IShow sh) w) = false ->
    exists l,
      fst (yield_incomplete_children cfg wall (IShow sh)
             (snd (can_we_scrape cfg wall (IShow sh) w))) = Some (map ISeason l)
      /\ fst (partial_state cfg wall (IShow sh) w) =
         PList (flat_map frontier_unit l).
Proof.
  intros sh w Hls Hgate.
  exists (fst (filterM (fun s => incomplete_child cfg wall (ISeason s))
                       (seasons sh)
                       (snd (can_we_scrape cfg wall (IShow sh) w)))).
  split.
  - simpl. unfold bind, ret.
    destruct (filterM _ (seasons sh) _) as [l w1]. reflexivity.
  - rewrite partial_state_value. simpl base. rewrite Hls, Hgate. reflexivity.
Qed.

(** X19. Every item in the frontier of a Show is released and not completed.
    It is a season of the Show all of whose episodes are released and not
    completed, or an episode of a season of the Show that has an episode
    completed or not released. *)
Theorem show_frontier_items_are_pending :
  forall (sh : Show) (w : World) (l : list MediaItem) (x : MediaItem),
    fst (partial_state cfg wall (IShow sh) w) = PList l ->
    In x l ->
    is_released (base x) = true
    /\ state (base x) <> Completed
    /\ ((exists s, x = ISeason s /\ In s (seasons sh) /\
           forall e, In e (episodes s) ->
             is_released (episode_base e) = true /\
             state (episode_base e) <> Completed)
        \/
        (exists s e, x = IEpisode e /\ In s (seasons sh) /\ In e (episodes s) /\
           exists e', In e' (episodes s) /\
             (is_released (episode_base e') = false \/
              state (episode_base e') = Completed))).
Proof.
  intros sh w l x Hr Hx. rewrite partial_state_value in Hr.
  destruct (negb (States_eqb (last_state (base (IShow sh))) PartiallyCompleted));
    [discriminate|].
  destruct (fst (can_we_scrape cfg wall (IShow sh) w)); [discriminate|].
  injection Hr as <-.
  apply in_flat_map in Hx. destruct Hx as [s [Hs Hx]].
  destruct (comprehension_spec ISeason (seasons sh)
              (snd (can_we_scrape cfg wall (IShow sh) w)))
    as [_ [_ [Hin _]]].
  destruct (Hin s Hs) as [Hseason [n [_ Hp]]].
  apply pending_at_attributes in Hp. destruct Hp as [Hstate Hrel].
  unfold frontier_unit in Hx.
  destruct (forallb released_incomplete (episodes s)) eqn:Eall.
  - destruct Hx as [<-|[]]. simpl.
    split; [exact Hrel|]. split; [exact Hstate|]. left.
    exists s. split; [reflexivity|]. split; [exact Hseason|].
    intros e He. rewrite forallb_forall in Eall. specialize (Eall e He).
    unfold released_incomplete in Eall. apply andb_true_iff in Eall.
    destruct Eall as [Hr Hn]. split; [exact Hr | apply not_completed_spec, Hn].
  - apply in_map_iff in Hx. destruct Hx as [e [<- He]].
    apply filter_In in He. destruct He as [He Hp].
    unfold released_incomplete in Hp. apply andb_true_iff in Hp.
    destruct Hp as [Hr Hn]. simpl.
    split; [exact Hr|]. split; [apply not_completed_spec, Hn|]. right.
    exists s, e. split; [reflexivity|]. split; [exact Hseason|].
    split; [exact He|].
    destruct (forallb_false_exists _ _ Eall) as [e' [He' Hp']].
    exists e'. split; [exact He'|].
    unfold released_incomplete in Hp'. apply andb_false_iff in Hp'.
    destruct Hp' as [Hp'|Hp']; [left; exact Hp'|].
    right. unfold not_completed in Hp'. apply negb_false_iff in Hp'.
    apply States_eqb_eq, Hp'.
Qed.

(** X20. [partial_state] logs nothing of its own: an item whose [last_state]
    is not [PartiallyCompleted] is answered [False] with the world
    untouched (the gate is not even evaluated), and for any other item the
    trace gains what the gate logged and nothing more, although
    [should_submit] is evaluated for the seasons of a Show. *)
Theorem partial_state_logs_only_the_gate :
  forall (item : MediaItem) (w : World),
    (last_state (base item) <> PartiallyCompleted ->
       partial_state cfg wall item w = (PFalse, w))
    /\ (last_state (base item) = PartiallyCompleted ->
          new_events (partial_state cfg wall item) w =
          new_events (can_we_scrape cfg wall item) w).
Proof.
  intros item w. split.
  - intros Hne. unfold partial_state.
    destruct (States_eqb (last_state (base item)) PartiallyCompleted) eqn:E.
    + apply States_eqb_eq in E. contradiction.
    + reflexivity.
  - intros Hls. unfold new_events. f_equal.
    unfold partial_state. rewrite Hls.
    change (negb (States_eqb PartiallyCompleted PartiallyCompleted)) with false.
    cbv iota. unfold bind at 1.
    destruct (can_we_scrape cfg wall item w) as [ok w1].
    cbn [snd]. destruct ok; [reflexivity|].
    destruct item as [b|sh|se|ep]; try reflexivity.
    unfold bind.
    destruct (comprehension_spec ISeason (seasons sh) w1) as [Htr _].
    destruct (filterM _ (seasons sh) w1) as [sres w2]. exact Htr.
Qed.

End WalkerMore.

(* ------------------------------------------------------------------ *)
(** ** The further properties at the sample inputs *)




Lemma scrape_without_initialized_service_witness :
  validate (mkScraping [Sample.orionoid]) = false
  /\ fst (scrape Sample.settings Sample.rank_all (mkScraping [Sample.orionoid])
                 Sample.in_order Sample.fresh_movie true Sample.w0)
     = Returned []
  /\ queries
       (new_events (scrape Sample.settings Sample.rank_all
                           (mkScraping [Sample.orionoid])
                           Sample.in_order Sample.fresh_movie true) Sample.w0)
     = [].
Proof.
  split; [reflexivity|].
  pose proof (scrape_without_initialized_service Sample.settings Sample.rank_all
                (mkScraping [Sample.orionoid]) Sample.in_order
                Sample.fresh_movie true Sample.w0 in_order_fair eq_refl) as H.
  destruct H as [_ [_ [Hval [Hq _]]]].
  split; [rewrite Hval; reflexivity | exact Hq].
Defined.

Lemma scrape_queries_initialized_services_witness :
  Permutation
    (queries
       (new_events (scrape Sample.settings Sample.rank_all Sample.three_backends
                           Sample.reversed Sample.fresh_movie true) Sample.w0))
    ["Torrentio"; "Comet"; "Jackett"].
Proof.
  apply (scrape_queries_initialized_services Sample.settings Sample.rank_all
           Sample.three_backends Sample.reversed Sample.fresh_movie true
           Sample.w0 reversed_fair).
Defined.

Lemma merged_keys_are_offered_keys_witness :
  In "Y" (Dict.keys (merged_mapping Sample.three_backends Sample.reversed
                                    Sample.fresh_movie)).
Proof.
  apply (merged_keys_are_offered_keys Sample.three_backends Sample.reversed
           Sample.fresh_movie "Y" reversed_fair).
  exists Sample.jackett, [("Y", "Title.Three")].
  split; [simpl; auto|]. split; [reflexivity|]. split; [reflexivity|].
  left. reflexivity.
Defined.

(** Torrentio takes the lock first, Comet raises, Jackett does not offer
    the key: Torrentio's title stays. *)
Lemma merged_value_from_last_writer_witness :
  dict_get "X" (merged_mapping Sample.three_backends Sample.in_order
                               Sample.fresh_movie) = Some "Title.One".
Proof.
  apply (merged_value_from_last_writer Sample.three_backends Sample.in_order
           Sample.fresh_movie [] [Sample.comet; Sample.jackett] Sample.torrentio
           [("X", "Title.One")] "X" "Title.One").
  - reflexivity.
  - reflexivity.
  - constructor; [intros [] | constructor].
  - reflexivity.
  - intros s' d' [<-|[<-|[]]] Hrun.
    + discriminate.
    + injection Hrun as <-. reflexivity.
Defined.

Lemma merge_counts_independent_of_schedule_witness :
  Dict.len (merged_mapping Sample.two_backends Sample.in_order Sample.fresh_movie)
  = Dict.len (merged_mapping Sample.two_backends Sample.reversed Sample.fresh_movie)
  /\ merged_mapping Sample.two_backends Sample.in_order Sample.fresh_movie
     <> merged_mapping Sample.two_backends Sample.reversed Sample.fresh_movie.
Proof.
  split; [|discriminate].
  apply (merge_counts_independent_of_schedule Sample.settings Sample.rank_all
           Sample.two_backends Sample.in_order Sample.reversed
           Sample.fresh_movie true Sample.w0 Sample.w0
           in_order_fair reversed_fair).
Defined.

Lemma run_records_completed_scrape_witness :
  let res := run Sample.settings Sample.hourly Sample.rank_all
                 Sample.two_backends Sample.in_order Sample.fresh_movie Sample.w0 in
  scraped_times (base (snd (fst res))) = 1
  /\ scraped_at (base (snd (fst res))) = Some 0
  /\ map infohash (streams (base (snd (fst res)))) = ["X"].
Proof.
  cbv zeta.
  pose proof (run_records_completed_scrape Sample.settings Sample.hourly
                Sample.rank_all Sample.two_backends Sample.in_order
                Sample.fresh_movie Sample.w0 _ eq_refl eq_refl) as H.
  cbv zeta in H. destruct H as [_ [Htimes [Hat _]]].
  split; [rewrite Htimes; reflexivity|].
  split; [rewrite Hat; reflexivity | reflexivity].
Defined.

Lemma run_admitted_queries_initialized_services_witness :
  Permutation
    (queries
       (new_events (run Sample.settings Sample.hourly Sample.rank_fails
                        Sample.three_backends Sample.reversed Sample.fresh_movie)
                   Sample.w0))
    ["Torrentio"; "Comet"; "Jackett"].
Proof.
  apply (run_admitted_queries_initialized_services Sample.settings Sample.hourly
           Sample.rank_fails Sample.three_backends Sample.reversed
           Sample.fresh_movie Sample.w0 reversed_fair eq_refl).
Defined.


Lemma partial_state_coarsens_incomplete_children_witness :
  fst (yield_incomplete_children Sample.settings
         (Sample.frozen (1 * Sample.minute)) Sample.show
         (snd (can_we_scrape Sample.settings (Sample.frozen (1 * Sample.minute))
                 Sample.show Sample.w0)))
  = Some [ISeason Sample.season_a; ISeason Sample.season_b]
  /\ exists l,
       fst (partial_state Sample.settings (Sample.frozen (1 * Sample.minute))
              Sample.show Sample.w0) = PList (flat_map frontier_unit l).
Proof.
  split; [reflexivity|].
  destruct (partial_state_coarsens_incomplete_children Sample.settings
              (Sample.frozen (1 * Sample.minute))
              (mkShow (Sample.attrs "show" PartiallyCompleted true (Some 0) 0)
                      [Sample.season_a; Sample.season_b])
              Sample.w0 eq_refl eq_refl) as [l [_ Hl]].
  exists l. exact Hl.
Defined.

Lemma show_frontier_items_are_pending_witness :
  is_released (base (IEpisode Sample.b2)) = true
  /\ state (base (IEpisode Sample.b2)) <> Completed.
Proof.
  destruct (show_frontier_items_are_pending Sample.settings
              (Sample.frozen (1 * Sample.minute))
              (mkShow (Sample.attrs "show" PartiallyCompleted true (Some 0) 0)
                      [Sample.season_a; Sample.season_b])
              Sample.w0
              [ISeason Sample.season_a; IEpisode Sample.b2]
              (IEpisode Sample.b2) eq_refl (or_intror (or_introl eq_refl)))
    as [Hrel [Hstate _]].
  split; [exact Hrel | exact Hstate].
Defined.


(** Comet raises among three backends: the other two are ranked. *)
Lemma scrape_drops_failing_backend_silently_witness :
  fst (scrape Sample.settings Sample.rank_all Sample.three_backends
              Sample.reversed Sample.fresh_movie true Sample.w0)
  = Sample.rank_all Sample.fresh_movie [("Y", "Title.Three"); ("X", "Title.One")] true
  /\ logger_events
       (new_events (scrape Sample.settings Sample.rank_all Sample.three_backends
                           Sample.reversed Sample.fresh_movie true) Sample.w0)
     = [].
Proof.
  pose proof (scrape_drops_failing_backend_silently Sample.settings
                Sample.rank_all Sample.three_backends Sample.reversed
                Sample.fresh_movie true Sample.w0 Sample.comet Sample.torrentio
                Sample.jackett "timeout" [("X", "Title.One")]
                [("Y", "Title.Three")]
                reversed_fair (perm_swap _ _ _) eq_refl eq_refl eq_refl) as H.
  cbv zeta in H. destruct H as [_ [Hval [_ [_ [Hlog _]]]]].
  split; [rewrite Hval; reflexivity | rewrite Hlog; reflexivity].
Defined.

(** Comet raises and the code logs nothing at all: no diagnostic names
    the failing backend. *)
Lemma scrape_failing_backend_not_logged :
  service_run Sample.comet Sample.fresh_movie = Raised "timeout"
  /\ logger_events
       (new_events (scrape Sample.settings Sample.rank_all Sample.three_backends
                           Sample.reversed Sample.fresh_movie true) Sample.w0)
     = []
  /\ List.length
       (logger_events
          (new_events (scrape Sample.settings Sample.rank_all
                              Sample.three_backends Sample.reversed
                              Sample.fresh_movie true) Sample.w0))
     <> 1%nat.
Proof.
  split; [reflexivity|]. split; [reflexivity|]. discriminate.
Defined.
